(** * Forecast pipeline of [chatgpt_app.py]: metrics, adapters, orchestration

    A shallow embedding of the forecasting core of the Streamlit script
    [src/chatgpt_app.py]:

    - [calculate_metrics] (lines 22-30),
    - the four adapters [run_ets_model], [run_arima_model],
      [run_xgboost_model], [run_lstm_model] (lines 46-91),
    - the body of the "Run Forecast" button (lines 173-226).

    Conventions of the embedding.

    - A float64 is idealised as a real number ([R]): rounding, overflow and
      the special values inf/NaN of the metric inputs are outside the model.
      The only NaN the source itself manufactures, the padding of
      [Series.shift], is kept ([npfloat]).
    - Where rounding, overflow or NaN decide a property of the metrics (their
      ranges, the all-zero inputs), [calculate_metrics] is embedded a second
      time, on IEEE 754 binary64 numbers ([Binary64]), and the property is
      stated there.
    - A Python exception is a value [Exn cls msg]; a call that can raise
      returns [result A = exn + A].
    - statsmodels, xgboost and keras are not part of the repository: their
      fit/forecast/predict entry points are the fields of the class
      [Libraries], acting on an abstract library state (random generators,
      caches).  Every call the script makes to them is recorded in the trace
      of the run, next to the Streamlit output the script produces.
    - sklearn's two metric functions and matplotlib's length check are
      written out from their documented behaviour. *)

From Equations Require Import Equations.
From Stdlib Require Floats Uint63.
From Stdlib Require Import String DecimalString.
From Stdlib Require Import Reals Lra Lia List Arith Bool.
Import ListNotations.

Open Scope R_scope.

(** ** Exceptions and fallible results *)

Record exn := Exn { exn_class : string; exn_msg : string }.

Definition result (A : Type) : Type := (exn + A)%type.

Definition Ok {A} (a : A) : result A := inr a.
Definition Raise {A} (e : exn) : result A := inl e.

Definition rbind {A B} (r : result A) (k : A -> result B) : result B :=
  match r with
  | inl e => inl e
  | inr a => k a
  end.

Definition ValueError (msg : string) : exn := Exn "ValueError" msg.
Definition IndexError (msg : string) : exn := Exn "IndexError" msg.

Definition str_of_nat (n : nat) : string :=
  NilEmpty.string_of_uint (Nat.to_uint n).

(** ** Python slices on sequences *)

(** [xs[k:]] for [k >= 0]. *)
Definition slice_from {A} (k : nat) (xs : list A) : list A := skipn k xs.

(** [xs[:-k]] for [k > 0]: everything but the last [k] elements. *)
Definition slice_drop_last {A} (k : nat) (xs : list A) : list A :=
  firstn (length xs - k) xs.

(** [xs[-k:]] for [k > 0]: the last [k] elements, all of them when there
    are fewer. *)
Definition slice_last {A} (k : nat) (xs : list A) : list A :=
  skipn (length xs - k) xs.

(** ** numpy helpers used by [calculate_metrics] *)

(** Element-wise binary operation on two arrays of the same length.  The
    script reaches its own element-wise operations only after
    [mean_squared_error] has accepted the two arrays, hence with equal
    lengths. *)
Fixpoint map2 {A B C} (f : A -> B -> C) (xs : list A) (ys : list B) : list C :=
  match xs, ys with
  | x :: xs', y :: ys' => f x y :: map2 f xs' ys'
  | _, _ => []
  end.

Definition np_sum (xs : list R) : R := fold_right Rplus 0 xs.

Definition np_mean (xs : list R) : R := np_sum xs / INR (length xs).

(** [np.where(y == 0, 1e-6, y)] *)
Definition np_where_zero (y : list R) : list R :=
  map (fun v => if Req_dec_T v 0 then 1e-6 else v) y.

(** ** sklearn.metrics *)

(** [check_consistent_length] followed by [check_array] (at least one
    sample), as both regression metrics run them on their arguments. *)
Definition check_reg_targets (y_true y_pred : list R) : result unit :=
  if negb (length y_true =? length y_pred)%nat then
    Raise (ValueError
      ("Found input variables with inconsistent numbers of samples: ["
         ++ str_of_nat (length y_true) ++ ", "
         ++ str_of_nat (length y_pred) ++ "]")%string)
  else if (length y_true =? 0)%nat then
    Raise (ValueError
      "Found array with 0 sample(s) (shape=(0,)) while a minimum of 1 is required.")
  else Ok tt.

Definition mean_squared_error (y_true y_pred : list R) : result R :=
  rbind (check_reg_targets y_true y_pred) (fun _ =>
  Ok (np_mean (map2 (fun a p => (a - p) * (a - p)) y_true y_pred))).

Definition mean_absolute_error (y_true y_pred : list R) : result R :=
  rbind (check_reg_targets y_true y_pred) (fun _ =>
  Ok (np_mean (map2 (fun a p => Rabs (p - a)) y_true y_pred))).

(** ** [calculate_metrics] (lines 22-30) *)

Record metrics := { RMSE : R; MAE : R; SMAPE : R }.

(** The per-element terms of the symmetric percentage error. *)
Definition smape_terms (y_true y_pred : list R) : list R :=
  map2 (fun a p => 2 * Rabs (a - p) / (Rabs a + Rabs p)) y_true y_pred.

Definition calculate_metrics (y_true y_pred : list R) : result metrics :=
  let y_true := np_where_zero y_true in
  let y_pred := np_where_zero y_pred in
  rbind (mean_squared_error y_true y_pred) (fun mse =>
  let rmse := sqrt mse in
  rbind (mean_absolute_error y_true y_pred) (fun mae =>
  let smape := 100 * np_mean (smape_terms y_true y_pred) in
  Ok {| RMSE := rmse; MAE := mae; SMAPE := smape |})).

(** ** Lag frames (lines 69-70 and 80-82) *)

(** A cell of a feature matrix: a number, or the NaN with which
    [Series.shift] fills the positions it vacates. *)
Inductive npfloat :=
| NaN
| Num (r : R).

(** [time_series.shift(i)]: the values move [i] positions towards the end,
    the first [i] positions become NaN, the length is unchanged. *)
Definition shift (time_series : list R) (i : nat) : list npfloat :=
  firstn (length time_series) (repeat NaN i ++ map Num time_series).

(** [np.array(columns).T]: the rows of the transposed matrix.  Without
    any column the array is one-dimensional and empty, so it has no row. *)
Fixpoint transpose {A} (columns : list (list A)) : list (list A) :=
  match columns with
  | [] => []
  | [c] => map (fun x => [x]) c
  | c :: cs => map2 cons c (transpose cs)
  end.

(** [np.array([time_series.shift(i) for i in range(1, lags + 1)]).T[lags:]] *)
Definition lag_matrix (time_series : list R) (lags : nat) : list (list npfloat) :=
  slice_from lags (transpose (map (shift time_series) (seq 1 lags))).

(** The rows of the lag matrix written out, for the statements below:
    row [t] holds the [lags] observations before position [t], the nearest
    first. *)
Definition lag_row (time_series : list R) (lags t : nat) : list npfloat :=
  map (fun i => Num (nth (t - i) time_series 0)) (seq 1 lags).

(** [X.reshape((X.shape[0], X.shape[1], 1))]; [X.shape[1]] does not exist
    for the one-dimensional array obtained with [lags = 0]. *)
Definition reshape3 (lags : nat) (X : list (list npfloat))
  : result (list (list (list npfloat))) :=
  match lags with
  | O => Raise (IndexError "tuple index out of range")
  | S _ => Ok (map (map (fun x => [x])) X)
  end.

(** ** The external libraries *)

(** A keras layer as the script configures it. *)
Inductive layer :=
| LSTM (units : nat) (activation : string) (return_sequences : bool)
| Dense (units : nat)
| Dropout (rate : R).

(** Entry points of statsmodels, xgboost and keras the script calls.  Each
    acts on the library state and may raise. *)
Class Libraries := {
  lib_state : Type;
  lib_op (A : Type) : Type := lib_state -> result A * lib_state;

  ets_results : Type;
  (** [ExponentialSmoothing(endog, trend, seasonal, seasonal_periods,
      damped_trend).fit()] *)
  ExponentialSmoothing_fit :
    list R -> option string -> option string -> nat -> bool -> lib_op ets_results;
  ets_forecast : ets_results -> nat -> lib_op (list R);

  arima_results : Type;
  (** [SARIMAX(endog, order, seasonal_order).fit(disp=False)] *)
  SARIMAX_fit :
    list R -> nat * nat * nat -> nat * nat * nat * nat -> lib_op arima_results;
  (** [ARIMA(endog, order).fit()] *)
  ARIMA_fit : list R -> nat * nat * nat -> lib_op arima_results;
  arima_forecast : arima_results -> nat -> lib_op (list R);

  xgb_regressor : Type;
  (** [XGBRegressor(learning_rate, n_estimators, max_depth).fit(X, y)] *)
  XGBRegressor_fit :
    R -> nat -> nat -> list (list npfloat) -> list R -> lib_op xgb_regressor;
  XGBRegressor_predict : xgb_regressor -> list (list npfloat) -> lib_op (list R);

  keras_model : Type;
  (** A [Sequential] of the given layers, compiled with the optimizer and
      the loss, then [fit(X, y, epochs, batch_size, verbose=0)]. *)
  Sequential_fit :
    list layer -> string -> string ->
    list (list (list npfloat)) -> list R -> nat -> nat -> lib_op keras_model;
  (** [predict] returns an array of shape (rows, outputs). *)
  Sequential_predict :
    keras_model -> list (list (list npfloat)) -> lib_op (list (list R));
}.

(** What the libraries document about the size of what they return: a
    forecast has [steps] values, a prediction one row per input row, and
    the network ending in [Dense(1)] one output per row. *)
Class LibrariesContract (L : Libraries) : Prop := {
  ets_forecast_length : forall m steps s v s',
    ets_forecast m steps s = (inr v, s') -> length v = steps;
  arima_forecast_length : forall m steps s v s',
    arima_forecast m steps s = (inr v, s') -> length v = steps;
  XGBRegressor_predict_length : forall m X s v s',
    XGBRegressor_predict m X s = (inr v, s') -> length v = length X;
  Sequential_predict_shape : forall m X s v s',
    Sequential_predict m X s = (inr v, s') ->
    length v = length X /\ Forall (fun row => length row = 1%nat) v;
}.

(** Libraries whose answers do not depend on the library state (no
    random initialisation, no unseeded sampling). *)
Class Deterministic (L : Libraries) : Prop := {
  det_ets_fit : forall y t se sp dt s s',
    fst (ExponentialSmoothing_fit y t se sp dt s)
    = fst (ExponentialSmoothing_fit y t se sp dt s');
  det_ets_forecast : forall m k s s',
    fst (ets_forecast m k s) = fst (ets_forecast m k s');
  det_sarimax_fit : forall y o so s s',
    fst (SARIMAX_fit y o so s) = fst (SARIMAX_fit y o so s');
  det_arima_fit : forall y o s s',
    fst (ARIMA_fit y o s) = fst (ARIMA_fit y o s');
  det_arima_forecast : forall m k s s',
    fst (arima_forecast m k s) = fst (arima_forecast m k s');
  det_xgb_fit : forall lr n d X y s s',
    fst (XGBRegressor_fit lr n d X y s) = fst (XGBRegressor_fit lr n d X y s');
  det_xgb_predict : forall m X s s',
    fst (XGBRegressor_predict m X s) = fst (XGBRegressor_predict m X s');
  det_keras_fit : forall ls o l X y e b s s',
    fst (Sequential_fit ls o l X y e b s) = fst (Sequential_fit ls o l X y e b s');
  det_keras_predict : forall m X s s',
    fst (Sequential_predict m X s) = fst (Sequential_predict m X s');
}.

(** ** Runs: library state, trace, exceptions *)

(** What a run leaves behind, in order: the calls into the libraries with
    the data handed over, and the Streamlit output. *)
Inductive event :=
| FitSeries (estimator : string) (endog : list R)
| FitFrame (estimator : string) (X : list (list npfloat)) (y : list R)
| FitTensor (estimator : string) (X : list (list (list npfloat))) (y : list R)
| Forecast (estimator : string) (steps : nat)
| PredictFrame (estimator : string) (X : list (list npfloat))
| PredictTensor (estimator : string) (X : list (list (list npfloat)))
| StError (msg : string)
| StProgressInt (value : nat)
| StProgressFloat (value : R)
| StPyplot (lines : list (string * list nat * list R))
| StWrite (text : string)
| StDataframe (rows : list (string * metrics))
| StText (text : string).

Section Run.

Context {L : Libraries}.

Record world := World { libs : lib_state; trace : list event }.

(** A piece of the script: from a world to a value or an exception, and
    the world after it. *)
Definition M (A : Type) : Type := world -> result A * world.

Definition ret {A} (a : A) : M A := fun w => (inr a, w).

Definition bind {A B} (c : M A) (k : A -> M B) : M B :=
  fun w =>
    match c w with
    | (inl e, w') => (inl e, w')
    | (inr a, w') => k a w'
    end.

Definition raise {A} (e : exn) : M A := fun w => (inl e, w).

Definition lift {A} (r : result A) : M A := fun w => (r, w).

(** [try: body  except Exception as e: handler] *)
Definition try_except {A} (body : M A) (handler : exn -> M A) : M A :=
  fun w =>
    match body w with
    | (inl e, w') => handler e w'
    | (inr a, w') => (inr a, w')
    end.

Definition emit (ev : event) : M unit :=
  fun w => (inr tt, World (libs w) (trace w ++ [ev])).

(** A call into a library: recorded, then run on the library state. *)
Definition call {A} (ev : event) (op : lib_state -> result A * lib_state) : M A :=
  fun w =>
    let (r, s') := op (libs w) in
    (r, World s' (trace w ++ [ev])).

End Run.

Declare Scope run_scope.
Delimit Scope run_scope with run.
Notation "x <- c ;; k" := (bind c (fun x => k))
  (at level 61, c at next level, right associativity) : run_scope.
Notation "c ;; k" := (bind c (fun _ => k))
  (at level 61, right associativity) : run_scope.

Local Open Scope run_scope.

(** ** The four adapters (lines 46-91) *)

Section Adapters.

Context {L : Libraries}.

(** [x if x != "none" else None] *)
Definition none_to_None (x : string) : option string :=
  if String.eqb x "none" then None else Some x.

Definition run_ets_model (time_series : list R) (trend seasonal : string)
    (damped_trend : bool) (seasonal_periods : nat) : M (list R) :=
  ets_model <-
    call (FitSeries "ExponentialSmoothing" time_series)
         (ExponentialSmoothing_fit time_series
            (none_to_None trend) (none_to_None seasonal)
            seasonal_periods damped_trend) ;;
  call (Forecast "ExponentialSmoothing" 12) (ets_forecast ets_model 12).

Definition run_arima_model (time_series : list R) (p d q P D Q m : nat)
    (use_seasonality : bool) : M (list R) :=
  model <-
    (if use_seasonality then
       call (FitSeries "SARIMAX" time_series)
            (SARIMAX_fit time_series (p, d, q) (P, D, Q, m))
     else
       call (FitSeries "ARIMA" time_series)
            (ARIMA_fit time_series (p, d, q))) ;;
  call (Forecast "ARIMA" 12) (arima_forecast model 12).

Definition run_xgboost_model (time_series : list R) (lags : nat)
    (learning_rate : R) (n_estimators max_depth : nat) : M (list R) :=
  let X := lag_matrix time_series lags in
  let y := slice_from lags time_series in
  model <-
    call (FitFrame "XGBRegressor" (slice_drop_last 12 X) (slice_drop_last 12 y))
         (XGBRegressor_fit learning_rate n_estimators max_depth
            (slice_drop_last 12 X) (slice_drop_last 12 y)) ;;
  call (PredictFrame "XGBRegressor" (slice_last 12 X))
       (XGBRegressor_predict model (slice_last 12 X)).

(** The layers added to the [Sequential] model, lines 84-88. *)
Definition lstm_stack (lstm_units lstm_layers : nat) (dropout : R) : list layer :=
  repeat (LSTM lstm_units "relu" true) (lstm_layers - 1)
  ++ [LSTM lstm_units "relu" false; Dense 1; Dropout dropout].

Definition run_lstm_model (time_series : list R) (lags : nat)
    (lstm_units lstm_layers : nat) (dropout : R) (epochs batch_size : nat)
    : M (list R) :=
  let X := lag_matrix time_series lags in
  let y := slice_from lags time_series in
  X <- lift (reshape3 lags X) ;;
  model <-
    call (FitTensor "Sequential" (slice_drop_last 12 X) (slice_drop_last 12 y))
         (Sequential_fit (lstm_stack lstm_units lstm_layers dropout) "adam" "mse"
            (slice_drop_last 12 X) (slice_drop_last 12 y) epochs batch_size) ;;
  out <-
    call (PredictTensor "Sequential" (slice_last 12 X))
         (Sequential_predict model (slice_last 12 X)) ;;
  ret (concat out).

End Adapters.

(** ** The "Run Forecast" button (lines 173-226) *)

(** The values of the sidebar widgets (lines 103-137). *)
Record params := {
  cfg_seasonal : string;
  cfg_trend : string;
  cfg_damped_trend : bool;
  cfg_seasonal_periods : nat;
  cfg_p : nat; cfg_d : nat; cfg_q : nat;
  cfg_use_seasonality : bool;
  cfg_P : nat; cfg_D : nat; cfg_Q : nat; cfg_m : nat;
  cfg_lags : nat;
  cfg_learning_rate : R;
  cfg_n_estimators : nat;
  cfg_max_depth : nat;
  cfg_lstm_units : nat;
  cfg_lstm_layers : nat;
  cfg_dropout : R;
  cfg_epochs : nat;
  cfg_batch_size : nat;
}.

Inductive method := ETS | ARIMA | XGBoost | LSTM_.

(** The keys of the [futures] and [results] dictionaries. *)
Definition method_name (m : method) : string :=
  match m with
  | ETS => "ETS"
  | ARIMA => "ARIMA"
  | XGBoost => "XGBoost"
  | LSTM_ => "LSTM"
  end.

Definition methods : list method := [ETS; ARIMA; XGBoost; LSTM_].

(** A dictionary with string keys, in insertion order. *)
Fixpoint dict_get {V} (d : list (string * V)) (k : string) : option V :=
  match d with
  | [] => None
  | (k', v) :: d' => if String.eqb k' k then Some v else dict_get d' k
  end.

Fixpoint dict_set {V} (d : list (string * V)) (k : string) (v : V)
  : list (string * V) :=
  match d with
  | [] => [(k, v)]
  | (k', v') :: d' =>
      if String.eqb k' k then (k', v) :: d' else (k', v') :: dict_set d' k v
  end.

Section Orchestrator.

Context {L : Libraries}.

(** The adapter call of a method with the arguments the script passes,
    the same at lines 181-184 and at lines 201-204. *)
Definition adapter (c : params) (time_series : list R) (m : method) : M (list R) :=
  match m with
  | ETS =>
      run_ets_model time_series (cfg_trend c) (cfg_seasonal c)
        (cfg_damped_trend c) (cfg_seasonal_periods c)
  | ARIMA =>
      run_arima_model time_series (cfg_p c) (cfg_d c) (cfg_q c)
        (cfg_P c) (cfg_D c) (cfg_Q c) (cfg_m c) (cfg_use_seasonality c)
  | XGBoost =>
      run_xgboost_model time_series (cfg_lags c) (cfg_learning_rate c)
        (cfg_n_estimators c) (cfg_max_depth c)
  | LSTM_ =>
      run_lstm_model time_series (cfg_lags c) (cfg_lstm_units c)
        (cfg_lstm_layers c) (cfg_dropout c) (cfg_epochs c) (cfg_batch_size c)
  end.

(** A finished task of the thread pool: its value or the exception it
    raised. *)
Definition future : Type := result (list R).

(** [executor.submit(task)].  The pool runs the four tasks to completion
    before the [with] block is left; they share nothing but the library
    state, and the model runs them in submission order.  An exception of
    the task stays in its future. *)
Definition executor_submit (task : M (list R)) : M future :=
  fun w => let (r, w') := task w in (inr r, w').

(** [future.result()] re-raises the exception of the task. *)
Definition future_result (f : future) : M (list R) := lift f.

(** Lines 180-185. *)
Definition submit_all (c : params) (time_series : list R)
  : M (list (string * future)) :=
  f_ets <- executor_submit (adapter c time_series ETS) ;;
  f_arima <- executor_submit (adapter c time_series ARIMA) ;;
  f_xgb <- executor_submit (adapter c time_series XGBoost) ;;
  f_lstm <- executor_submit (adapter c time_series LSTM_) ;;
  ret [("ETS"%string, f_ets); ("ARIMA"%string, f_arima);
       ("XGBoost"%string, f_xgb); ("LSTM"%string, f_lstm)].

(** Lines 187-192: [i] counts from 1, [total] is [len(futures)]. *)
Fixpoint collect_results (time_series : list R) (total i : nat)
    (futures : list (string * future)) (results : list (string * metrics))
    : M (list (string * metrics)) :=
  match futures with
  | [] => ret results
  | (model, fut) :: rest =>
      results <-
        try_except
          (forecast <- future_result fut ;;
           scores <- lift (calculate_metrics (slice_last 12 time_series) forecast) ;;
           ret (dict_set results model scores))
          (fun e =>
             emit (StError (model ++ " failed: " ++ exn_msg e)) ;;
             ret results) ;;
      emit (StProgressFloat (INR i / INR total)) ;;
      collect_results time_series total (S i) rest results
  end.

(** [ax.plot(x, y, label=label)]: matplotlib refuses x and y of different
    lengths. *)
Definition ax_plot (x : list nat) (y : list R) (label : string)
    (fig : list (string * list nat * list R))
    : M (list (string * list nat * list R)) :=
  if (length x =? length y)%nat then ret (fig ++ [(label, x, y)])
  else raise (ValueError
    ("x and y must have same first dimension, but have shapes ("
       ++ str_of_nat (length x) ++ ",) and ("
       ++ str_of_nat (length y) ++ ",)")).

(** Lines 207-208. *)
Fixpoint plot_forecasts (time_series : list R)
    (forecasts : list (string * list R))
    (fig : list (string * list nat * list R))
    : M (list (string * list nat * list R)) :=
  match forecasts with
  | [] => ret fig
  | (label, forecast) :: rest =>
      fig <- ax_plot (seq (length time_series) 12) forecast label fig ;;
      plot_forecasts time_series rest fig
  end.

(** Lines 200-205: the four adapters are called again, outside any
    [try]. *)
Definition recompute_forecasts (c : params) (time_series : list R)
  : M (list (string * list R)) :=
  f_ets <- adapter c time_series ETS ;;
  f_arima <- adapter c time_series ARIMA ;;
  f_xgb <- adapter c time_series XGBoost ;;
  f_lstm <- adapter c time_series LSTM_ ;;
  ret [("ETS Forecast"%string, f_ets); ("ARIMA Forecast"%string, f_arima);
       ("XGBoost Forecast"%string, f_xgb); ("LSTM Forecast"%string, f_lstm)].

(** Lines 178-192, "Run models in parallel": the futures and the results
    are both still in scope afterwards. *)
Definition run_models_in_parallel (c : params) (time_series : list R)
  : M (list (string * future) * list (string * metrics)) :=
  futures <- submit_all c time_series ;;
  results <- collect_results time_series (length futures) 1 futures [] ;;
  ret (futures, results).

(** Lines 194-218, "Visualization". *)
Definition visualization (c : params) (time_series : list R)
  : M (list (string * list R)) :=
  fig <- ax_plot (seq 0 (length time_series)) time_series "Actual" [] ;;
  forecasts <- recompute_forecasts c time_series ;;
  fig <- plot_forecasts time_series forecasts fig ;;
  emit (StPyplot fig) ;;
  ret forecasts.

(** Lines 220-226, "Metrics Table". *)
Definition metrics_table (results : list (string * metrics)) : M unit :=
  emit (StWrite "Performance Metrics") ;;
  emit (StDataframe results) ;;
  emit (StProgressInt 100) ;;
  emit (StText "Forecasting Completed!").

(** The body of [if st.button("Run Forecast"):]. *)
Definition run_forecast (c : params) (time_series : list R) : M unit :=
  emit (StProgressInt 0) ;;
  scored <- run_models_in_parallel c time_series ;;
  forecasts <- visualization c time_series ;;
  metrics_table (snd scored).

End Orchestrator.

(** The precondition section 4.2 of the specification gives the adapters:
    a lag-based adapter needs more than [lags + 12] observations (and the
    slider keeps [lags] at 1 or more); the other two have none of this
    kind. *)
Definition adapter_precondition (c : params) (time_series : list R) (m : method)
  : bool :=
  match m with
  | XGBoost | LSTM_ =>
      (1 <=? cfg_lags c)%nat && (cfg_lags c + 12 <? length time_series)%nat
  | ETS | ARIMA => true
  end.

(** ** Reading outcomes *)

(** The exception class of a failed call. *)
Definition raises {A} (cls : string) (r : result A) : bool :=
  match r with
  | inl e => String.eqb (exn_class e) cls
  | inr _ => false
  end.

Definition succeeds {A} (r : result A) : bool :=
  match r with
  | inl _ => false
  | inr _ => true
  end.

(** What the scoring loop computes from a finished task:
    [calculate_metrics(time_series[-12:], future.result())]. *)
Definition future_scores (time_series : list R) (fut : result (list R))
  : result metrics :=
  rbind fut (calculate_metrics (slice_last 12 time_series)).

(** The data handed to the fitting calls recorded in a trace. *)
Definition is_fit (ev : event) : bool :=
  match ev with
  | FitSeries _ _ | FitFrame _ _ _ | FitTensor _ _ _ => true
  | _ => false
  end.

Definition fit_events (tr : list event) : list event := filter is_fit tr.

Definition is_dataframe (ev : event) : bool :=
  match ev with
  | StDataframe _ => true
  | _ => false
  end.

(** A run from [w] to [w'] appends to the trace, and appends only events
    that [P] accepts; a piece of the script is quiet for [P] when all its
    runs are such. *)
Definition appends {L : Libraries} (P : event -> bool) (w w' : world) : Prop :=
  exists evs, trace w' = trace w ++ evs /\ forallb P evs = true.

Definition quiet {L : Libraries} {A} (P : event -> bool) (c : M A) : Prop :=
  forall w, appends P w (snd (c w)).

(** A piece of the script whose outcome does not depend on the world it
    runs in. *)
Definition state_blind {L : Libraries} {A} (c : M A) : Prop :=
  forall w w', fst (c w) = fst (c w').

Definition not_dataframe (ev : event) : bool := negb (is_dataframe ev).

(** The output of the scoring loop: error messages and progress. *)
Definition loop_event (ev : event) : bool :=
  match ev with
  | StError _ | StProgressFloat _ => true
  | _ => false
  end.

(** ** The metrics in the words of the specification

    Second definitions, following section 4.1 of the specification, to
    compare [calculate_metrics] with. *)






(** ** Stand-in libraries

    Small executable libraries on which the pipeline can be run.  The
    library state is a counter standing for a random generator.

    - exponential smoothing refuses a seasonal model on fewer than two
      full cycles, as statsmodels does, and otherwise repeats the last
      observation; the autoregressive model repeats the last observation;
    - the regressors predict, for each row, its first feature (the
      previous observation); with [strict] they refuse an empty training
      frame, without it they accept it;
    - with [random] the network draws an offset from the generator when
      it is fitted, as an unseeded initialisation does. *)

Definition last_value (xs : list R) : R := last xs 0.

Definition first_feature (row : list npfloat) : R :=
  match row with
  | Num r :: _ => r
  | _ => 0
  end.

Definition first_feature3 (row : list (list npfloat)) : R :=
  match row with
  | [Num r] :: _ => r
  | _ => 0
  end.

Definition is_empty {A} (xs : list A) : bool :=
  match xs with
  | [] => true
  | _ => false
  end.

(** The refusal of the stand-in exponential smoothing. *)
Definition too_few_cycles : exn :=
  ValueError
    "Cannot compute initial seasonals using heuristic method with less than two full seasonal cycles in the data.".

Definition standin_libs (strict random : bool) : Libraries := {|
  lib_state := nat;
  ets_results := list R;
  ExponentialSmoothing_fit := fun endog _ seasonal seasonal_periods _ s =>
    match seasonal with
    | Some _ =>
        if (length endog <? 2 * seasonal_periods)%nat then (Raise too_few_cycles, s)
        else (Ok endog, s)
    | None => (Ok endog, s)
    end;
  ets_forecast := fun m steps s => (Ok (repeat (last_value m) steps), s);
  arima_results := list R;
  SARIMAX_fit := fun endog _ _ s => (Ok endog, s);
  ARIMA_fit := fun endog _ s => (Ok endog, s);
  arima_forecast := fun m steps s => (Ok (repeat (last_value m) steps), s);
  xgb_regressor := unit;
  XGBRegressor_fit := fun _ _ _ X _ s =>
    if strict && is_empty X
    then (Raise (Exn "XGBoostError" "Empty training data."), s)
    else (Ok tt, s);
  XGBRegressor_predict := fun _ X s => (Ok (map first_feature X), s);
  keras_model := nat;
  Sequential_fit := fun _ _ _ X _ _ _ s =>
    if strict && is_empty X
    then (Raise (ValueError "Training data contains 0 samples."), s)
    else if random then (Ok s, S s) else (Ok O, s);
  Sequential_predict := fun offset X s =>
    (Ok (map (fun row => [first_feature3 row + INR offset]) X), s);
|}.

(** The sidebar as it opens (the [value=] of each widget). *)
Definition default_params : params := {|
  cfg_seasonal := "add";
  cfg_trend := "add";
  cfg_damped_trend := false;
  cfg_seasonal_periods := 12;
  cfg_p := 1; cfg_d := 1; cfg_q := 1;
  cfg_use_seasonality := false;
  cfg_P := 0; cfg_D := 0; cfg_Q := 0; cfg_m := 1;
  cfg_lags := 5;
  cfg_learning_rate := 0.1;
  cfg_n_estimators := 100;
  cfg_max_depth := 6;
  cfg_lstm_units := 50;
  cfg_lstm_layers := 1;
  cfg_dropout := 0.2;
  cfg_epochs := 10;
  cfg_batch_size := 32;
|}.

(** The series 1, 2, ..., n. *)
Definition ramp (n : nat) : list R := map INR (seq 1 n).

(** The world a run on the stand-in libraries starts from: generator at
    0, nothing in the trace. *)
Definition standin_start (strict random : bool)
  : @world (standin_libs strict random) :=
  @World (standin_libs strict random) 0%nat [].

(** ** More ways to read a run *)

(** The forecasting and predicting calls recorded in a trace. *)
Definition is_predict (ev : event) : bool :=
  match ev with
  | Forecast _ _ | PredictFrame _ _ | PredictTensor _ _ => true
  | _ => false
  end.

(** A call into one of the libraries, as opposed to Streamlit output. *)
Definition is_call (ev : event) : bool := is_fit ev || is_predict ev.

(** What the scoring loop leaves in [results] and shows on the page, read
    off the futures: a row for each future that could be scored, and for
    each future, in order, an error message if it could not, then the
    progress. *)
Definition scored_rows (time_series : list R)
    (futures : list (string * result (list R))) : list (string * metrics) :=
  flat_map
    (fun nf =>
       match future_scores time_series (snd nf) with
       | inr scores => [(fst nf, scores)]
       | inl _ => []
       end)
    futures.

Fixpoint loop_output (time_series : list R) (total i : nat)
    (futures : list (string * result (list R))) : list event :=
  match futures with
  | [] => []
  | (model, fut) :: rest =>
      match future_scores time_series fut with
      | inr _ => []
      | inl e => [StError (model ++ " failed: " ++ exn_msg e)]
      end
      ++ StProgressFloat (INR i / INR total)
      :: loop_output time_series total (S i) rest
  end.

Definition is_error (ev : event) : bool :=
  match ev with
  | StError _ => true
  | _ => false
  end.

Definition is_progress (ev : event) : bool :=
  match ev with
  | StProgressFloat _ | StProgressInt _ => true
  | _ => false
  end.

(** The fitting calls of one round of the four adapters, with at least
    one lag. *)
Definition round_of_fits (c : params) (time_series : list R) : list event :=
  let history := slice_drop_last 12 time_series in
  [FitSeries "ExponentialSmoothing" time_series;
   FitSeries (if cfg_use_seasonality c then "SARIMAX" else "ARIMA") time_series;
   FitFrame "XGBRegressor"
     (lag_matrix history (cfg_lags c)) (slice_from (cfg_lags c) history);
   FitTensor "Sequential"
     (map (map (fun x => [x])) (lag_matrix history (cfg_lags c)))
     (slice_from (cfg_lags c) history)].

(** The lines of the forecast chart for the given forecasts. *)
Definition forecast_lines (time_series : list R)
    (forecasts : list (string * list R)) : list (string * list nat * list R) :=
  map (fun lf => (fst lf, seq (length time_series) 12, snd lf)) forecasts.

Definition has_12_values (lf : string * list R) : bool :=
  (length (snd lf) =? 12)%nat.

(** The five events with which a run that completes ends. *)
Definition closing_output (time_series : list R)
    (forecasts : list (string * list R)) (results : list (string * metrics))
  : list event :=
  [StPyplot (("Actual"%string, seq 0 (length time_series), time_series)
             :: forecast_lines time_series forecasts);
   StWrite "Performance Metrics";
   StDataframe results;
   StProgressInt 100;
   StText "Forecasting Completed!"].

(** The default sidebar with "Seasonality" set to "none". *)
Definition unseasonal_params : params := {|
  cfg_seasonal := "none";
  cfg_trend := "add";
  cfg_damped_trend := false;
  cfg_seasonal_periods := 12;
  cfg_p := 1; cfg_d := 1; cfg_q := 1;
  cfg_use_seasonality := false;
  cfg_P := 0; cfg_D := 0; cfg_Q := 0; cfg_m := 1;
  cfg_lags := 5;
  cfg_learning_rate := 0.1;
  cfg_n_estimators := 100;
  cfg_max_depth := 6;
  cfg_lstm_units := 50;
  cfg_lstm_layers := 1;
  cfg_dropout := 0.2;
  cfg_epochs := 10;
  cfg_batch_size := 32;
|}.

(** ** [preprocess_file] (lines 32-44) *)

(** pandas, as far as [preprocess_file] uses it: a data frame and a series
    are whatever pandas makes of the uploaded file. *)
Class Pandas := {
  uploaded_file : Type;
  dataframe : Type;
  series : Type;
  (** [pd.read_csv(uploaded_file)] *)
  read_csv : uploaded_file -> result dataframe;
  (** [df.columns] *)
  columns : dataframe -> list string;
  (** [df.groupby(key).sum().reset_index()] *)
  groupby_sum_reset_index : dataframe -> string -> result dataframe;
  (** [df.iloc[:, -1]] *)
  iloc_last_column : dataframe -> result series;
}.

Definition preprocess_file {L : Libraries} {P : Pandas} (file : uploaded_file)
  : M (option series) :=
  try_except
    (df <- lift (read_csv file) ;;
     if (length (columns df) <? 2)%nat then
       emit (StError "The uploaded file must have at least two columns.") ;;
       ret None
     else
       df <- lift (groupby_sum_reset_index df (nth 0 (columns df) ""%string)) ;;
       time_series <- lift (iloc_last_column df) ;;
       ret (Some time_series))
    (fun e =>
       emit (StError ("Error reading the file: " ++ exn_msg e)) ;;
       ret None).

(** ** [calculate_metrics] on binary64 *)

(** The metric evaluator once more, this time on IEEE 754 binary64 numbers
    (the primitive floats, specified bit by bit in [SpecFloat]) instead of
    real numbers: every operation rounds to nearest-even, overflows to an
    infinity and propagates NaN as numpy's does.  The properties in which
    rounding, overflow or NaN have a say are stated on this embedding. *)
Module Binary64.

Import PrimFloat.
Local Open Scope float_scope.
#[local] Set Warnings "-inexact-float".

(** The number of elements as a float64, as [np.mean] divides by it. *)
Definition of_nat (n : nat) : float := of_uint63 (Uint63.of_Z (Z.of_nat n)).

(** [np.where(y == 0, 1e-6, y)]: [==] holds for both zeros and never for
    NaN. *)
Definition np_where_zero (y : list float) : list float :=
  map (fun v => if v =? 0 then 1e-6 else v) y.

(** numpy adds the elements of a float array by pairwise summation: fewer
    than 8 elements one after the other; up to 128 elements with 8
    accumulators over the blocks of 8, which are then added as a tree, and
    the elements left over one after the other; above that, the two halves
    (the first a multiple of 8 long) on their own. *)
Definition sequential_sum (res : float) (xs : list float) : float :=
  fold_left add xs res.

Fixpoint add_blocks (blocks : nat) (r xs : list float) : list float :=
  match blocks with
  | O => r
  | S k => add_blocks k (map2 add r (firstn 8 xs)) (skipn 8 xs)
  end.

(** The 8 accumulators start as the first 8 elements: the branch without
    them is for arrays shorter than 8, which do not come here. *)
Definition unrolled_sum (xs : list float) : float :=
  let n := length xs in
  match add_blocks (n / 8 - 1) (firstn 8 xs) (skipn 8 xs) with
  | [r0; r1; r2; r3; r4; r5; r6; r7] =>
      sequential_sum (((r0 + r1) + (r2 + r3)) + ((r4 + r5) + (r6 + r7)))
        (skipn (8 * (n / 8)) xs)
  | _ => sequential_sum 0 xs
  end.

Definition split_point (n : nat) : nat := (n / 2 - (n / 2) mod 8)%nat.

Equations? pairwise_sum (xs : list float) : float by wf (length xs) lt :=
  pairwise_sum xs with le_lt_dec (length xs) 128 := {
    | left _ =>
        if (length xs <? 8)%nat then sequential_sum 0 xs else unrolled_sum xs
    | right _ =>
        pairwise_sum (firstn (split_point (length xs)) xs)
        + pairwise_sum (skipn (split_point (length xs)) xs) }.
Proof.
  - rewrite length_firstn. unfold split_point.
    assert (length xs / 2 < length xs)%nat by (apply Nat.div_lt; lia). lia.
  - rewrite length_skipn. unfold split_point.
    assert (64 <= length xs / 2)%nat by (apply Nat.div_le_lower_bound; lia).
    assert ((length xs / 2) mod 8 < 8)%nat by (apply Nat.mod_upper_bound; lia).
    lia.
Defined.

(** [np.add.reduce]: the sum starts from the identity 0. *)
Definition np_sum (xs : list float) : float := 0 + pairwise_sum xs.

(** [np.mean]: the sum divided by the number of elements; NaN (0/0) on an
    empty array. *)
Definition np_mean (xs : list float) : float := np_sum xs / of_nat (length xs).

(** sklearn's [check_array]: no NaN, no infinity, at least one sample. *)
Definition check_array (y : list float) : result unit :=
  if existsb is_nan y then
    Raise (ValueError "Input contains NaN.")
  else if existsb is_infinity y then
    Raise (ValueError
      "Input contains infinity or a value too large for dtype('float64').")
  else if (length y =? 0)%nat then
    Raise (ValueError
      "Found array with 0 sample(s) (shape=(0,)) while a minimum of 1 is required.")
  else Ok tt.

(** [check_consistent_length], then [check_array] on either argument. *)
Definition check_reg_targets (y_true y_pred : list float) : result unit :=
  if negb (length y_true =? length y_pred)%nat then
    Raise (ValueError
      ("Found input variables with inconsistent numbers of samples: ["
         ++ str_of_nat (length y_true) ++ ", "
         ++ str_of_nat (length y_pred) ++ "]")%string)
  else
    rbind (check_array y_true) (fun _ => check_array y_pred).

(** Both regression metrics average the errors of the one output column
    ([np.average(..., axis=0)]) and then the columns
    ([np.average(output_errors)], here over a single one). *)
Definition mean_squared_error (y_true y_pred : list float) : result float :=
  rbind (check_reg_targets y_true y_pred) (fun _ =>
  let output_errors :=
    [np_mean (map2 (fun a p => (a - p) * (a - p)) y_true y_pred)] in
  Ok (np_mean output_errors)).

Definition mean_absolute_error (y_true y_pred : list float) : result float :=
  rbind (check_reg_targets y_true y_pred) (fun _ =>
  let output_errors :=
    [np_mean (map2 (fun a p => abs (p - a)) y_true y_pred)] in
  Ok (np_mean output_errors)).

Record metrics := { RMSE : float; MAE : float; SMAPE : float }.

(** [2 * np.abs(y_true - y_pred) / (np.abs(y_true) + np.abs(y_pred))],
    one element. *)
Definition smape_term (a p : float) : float :=
  2 * abs (a - p) / (abs a + abs p).

Definition calculate_metrics (y_true y_pred : list float) : result metrics :=
  let y_true := np_where_zero y_true in
  let y_pred := np_where_zero y_pred in
  rbind (mean_squared_error y_true y_pred) (fun mse =>
  let rmse := sqrt mse in
  rbind (mean_absolute_error y_true y_pred) (fun mae =>
  let smape := 100 * np_mean (map2 smape_term y_true y_pred) in
  Ok {| RMSE := rmse; MAE := mae; SMAPE := smape |})).







End Binary64.

(** * Properties *)

(** ** Element-wise operations *)

Lemma map2_length {A B C} (f : A -> B -> C) xs ys :
  length (map2 f xs ys) = Nat.min (length xs) (length ys).
Proof.
  revert ys; induction xs as [|x xs IH]; intros [|y ys]; simpl; auto.
Qed.


Lemma map2_Forall {A B C} (f : A -> B -> C)
    (P : A -> Prop) (Q : B -> Prop) (T : C -> Prop) :
  (forall x y, P x -> Q y -> T (f x y)) ->
  forall xs ys, Forall P xs -> Forall Q ys -> Forall T (map2 f xs ys).
Proof.
  intros Hf xs; induction xs as [|x xs IH]; intros [|y ys] Hx Hy; simpl;
    try constructor.
  - inversion Hx; inversion Hy; subst; auto.
  - inversion Hx; inversion Hy; subst; auto.
Qed.

(** ** The mean of bounded numbers *)

Lemma np_sum_bounds lo hi xs :
  Forall (fun x => lo <= x <= hi) xs ->
  lo * INR (length xs) <= np_sum xs <= hi * INR (length xs).
Proof.
  induction 1 as [|x xs Hx _ IH].
  - simpl; lra.
  - change (np_sum (x :: xs)) with (x + np_sum xs).
    change (length (x :: xs)) with (S (length xs)).
    rewrite S_INR; lra.
Qed.

Lemma np_mean_bounds lo hi xs :
  xs <> [] ->
  Forall (fun x => lo <= x <= hi) xs ->
  lo <= np_mean xs <= hi.
Proof.
  intros Hne Hall.
  assert (Hn : 0 < INR (length xs)).
  { apply lt_0_INR. destruct xs; [congruence | simpl; lia]. }
  pose proof (np_sum_bounds lo hi xs Hall) as [Hlo Hhi].
  unfold np_mean, Rdiv. split.
  - apply Rmult_le_reg_r with (INR (length xs)); [assumption|].
    rewrite Rmult_assoc, Rinv_l by lra. lra.
  - apply Rmult_le_reg_r with (INR (length xs)); [assumption|].
    rewrite Rmult_assoc, Rinv_l by lra. lra.
Qed.

Lemma np_mean_nonneg xs :
  Forall (fun x => 0 <= x) xs -> 0 <= np_mean xs.
Proof.
  intros Hall. unfold np_mean, Rdiv.
  apply Rmult_le_pos.
  - induction Hall; simpl; [lra|]. unfold np_sum in *; simpl; lra.
  - destruct xs as [|x xs'].
    + simpl. rewrite Rinv_0. lra.
    + left. apply Rinv_0_lt_compat, lt_0_INR. simpl; lia.
Qed.

(** ** The zero guard *)

Lemma np_where_zero_length y : length (np_where_zero y) = length y.
Proof. apply length_map. Qed.

Lemma np_where_zero_nonzero y : Forall (fun v => v <> 0) (np_where_zero y).
Proof.
  unfold np_where_zero. induction y as [|v y IH]; simpl; constructor; auto.
  destruct (Req_dec_T v 0); lra.
Qed.



(** ** [calculate_metrics] on well-shaped and ill-shaped inputs *)

Lemma check_reg_targets_ok a p :
  length a = length p -> a <> [] -> check_reg_targets a p = Ok tt.
Proof.
  intros Hlen Hne. unfold check_reg_targets.
  rewrite Hlen, Nat.eqb_refl. simpl.
  destruct a; [congruence|]. simpl in Hlen. rewrite <- Hlen. reflexivity.
Qed.

Lemma check_reg_targets_raises a p :
  length a <> length p \/ a = [] \/ p = [] ->
  exists msg, check_reg_targets a p = Raise (ValueError msg).
Proof.
  intros H. unfold check_reg_targets.
  destruct (Nat.eqb_spec (length a) (length p)) as [E|E]; simpl.
  - destruct (Nat.eqb_spec (length a) 0) as [E0|E0]; [eauto|].
    exfalso. destruct H as [H|[H|H]]; subst; simpl in *; congruence.
  - eauto.
Qed.

(** What [calculate_metrics] returns on two sequences of one length. *)
Lemma calculate_metrics_value a p :
  length a = length p -> a <> [] ->
  calculate_metrics a p =
  Ok {| RMSE := sqrt (np_mean (map2 (fun x y => (x - y) * (x - y))
                                  (np_where_zero a) (np_where_zero p)));
        MAE := np_mean (map2 (fun x y => Rabs (y - x))
                             (np_where_zero a) (np_where_zero p));
        SMAPE := 100 * np_mean (smape_terms (np_where_zero a) (np_where_zero p)) |}.
Proof.
  intros Hlen Hne. unfold calculate_metrics, mean_squared_error, mean_absolute_error.
  rewrite check_reg_targets_ok.
  - reflexivity.
  - now rewrite !np_where_zero_length.
  - destruct a; [congruence | discriminate].
Qed.

Lemma smape_term_bounds x y :
  x <> 0 -> 0 <= 2 * Rabs (x - y) / (Rabs x + Rabs y) <= 2.
Proof.
  intros Hx.
  assert (Hax : 0 < Rabs x) by now apply Rabs_pos_lt.
  pose proof (Rabs_pos y) as Hay.
  pose proof (Rabs_pos (x - y)) as Hd.
  pose proof (Rabs_triang x (- y)) as Ht. rewrite Rabs_Ropp in Ht.
  replace (x + - y) with (x - y) in Ht by ring.
  assert (Hs : 0 < Rabs x + Rabs y) by lra.
  split.
  - apply Rmult_le_pos; [lra|]. left. now apply Rinv_0_lt_compat.
  - apply Rmult_le_reg_r with (Rabs x + Rabs y); [assumption|].
    unfold Rdiv. rewrite Rmult_assoc, Rinv_l by lra. lra.
Qed.


(** ** Claims about the metric evaluator *)




(** C7 (as amended). For every pair of sequences whose lengths differ, or
    one of which is empty, [calculate_metrics] fails: it raises the
    [ValueError] of the consistency check of [mean_squared_error], and
    returns no metric. *)
Theorem calculate_metrics_ill_shaped_raises_ValueError a p :
  length a <> length p \/ a = [] \/ p = [] ->
  raises "ValueError" (calculate_metrics a p) = true.
Proof.
  intros H.
  destruct (check_reg_targets_raises (np_where_zero a) (np_where_zero p))
    as [msg Hmsg].
  - rewrite !np_where_zero_length.
    destruct H as [H|[H|H]]; subst; auto.
  - unfold calculate_metrics, mean_squared_error. rewrite Hmsg. reflexivity.
Qed.

Lemma calculate_metrics_ill_shaped_raises_ValueError_witness :
  raises "ValueError" (calculate_metrics [1] [1; 2]) = true.
Proof.
  apply (calculate_metrics_ill_shaped_raises_ValueError [1] [1; 2]).
  left. simpl. lia.
Defined.

(** C7 (as stated) fails: on sequences of lengths 1 and 2 the exception
    raised is a [ValueError], not a [DimensionMismatch]; the same on two
    empty sequences. *)
Lemma calculate_metrics_no_DimensionMismatch :
  calculate_metrics [1] [1; 2] =
    Raise (ValueError
      "Found input variables with inconsistent numbers of samples: [1, 2]")
  /\ raises "DimensionMismatch" (calculate_metrics [1] [1; 2]) = false
  /\ raises "DimensionMismatch" (calculate_metrics [] []) = false.
Proof. repeat split. Qed.

(** In exact arithmetic (over the reals: no rounding, no overflow) the
    metrics of an equal-length, non-empty pair of sequences are in range:
    RMSE >= 0, MAE >= 0 and 0 <= SMAPE <= 200. *)
Lemma calculate_metrics_ranges_exact a p :
  length a = length p -> a <> [] ->
  exists m, calculate_metrics a p = Ok m
    /\ 0 <= RMSE m /\ 0 <= MAE m /\ 0 <= SMAPE m <= 200.
Proof.
  intros Hlen Hne.
  rewrite (calculate_metrics_value a p Hlen Hne).
  eexists; split; [reflexivity|]. simpl.
  assert (Hterms : Forall (fun t => 0 <= t <= 2)
                     (smape_terms (np_where_zero a) (np_where_zero p))).
  { unfold smape_terms.
    apply map2_Forall with (P := fun v => v <> 0) (Q := fun _ => True).
    - intros x y Hx _. now apply smape_term_bounds.
    - apply np_where_zero_nonzero.
    - apply Forall_forall; auto. }
  assert (Hne' : smape_terms (np_where_zero a) (np_where_zero p) <> []).
  { intros E. apply (f_equal (@length R)) in E. unfold smape_terms in E.
    rewrite map2_length, !np_where_zero_length, <- Hlen, Nat.min_id in E.
    destruct a; [congruence | discriminate]. }
  pose proof (np_mean_bounds 0 2 _ Hne' Hterms) as [Hlo Hhi].
  split; [apply sqrt_pos|]. split; [|lra].
  apply np_mean_nonneg.
  apply map2_Forall with (P := fun _ => True) (Q := fun _ => True);
    try (apply Forall_forall; auto).
  intros x y _ _. apply Rabs_pos.
Qed.

(** ** [calculate_metrics] on binary64 *)

Section Binary64Facts.

Import PrimFloat SpecFloat FloatOps FloatAxioms Binary64.
Local Open Scope float_scope.
#[local] Set Warnings "-inexact-float".

(** *** Sums keep what addition keeps *)

Section Closed.

Variable P : float -> Prop.
Hypothesis P_add : forall x y, P x -> P y -> P (x + y).
Hypothesis P_zero : P 0.

Lemma Forall_firstn_skipn (n : nat) (xs : list float) :
  Forall P xs -> Forall P (firstn n xs) /\ Forall P (skipn n xs).
Proof.
  intros H. rewrite <- (firstn_skipn n xs) in H.
  now apply Forall_app in H.
Qed.

Lemma sequential_sum_closed xs :
  forall res, P res -> Forall P xs -> P (sequential_sum res xs).
Proof.
  induction xs as [|x xs IH]; intros res Hres Hxs; simpl; [assumption|].
  inversion Hxs; subst. apply IH; auto.
Qed.

Lemma add_blocks_closed blocks :
  forall r xs, Forall P r -> Forall P xs -> Forall P (add_blocks blocks r xs).
Proof.
  induction blocks as [|k IH]; intros r xs Hr Hxs; simpl; [assumption|].
  destruct (Forall_firstn_skipn 8 xs Hxs) as [Hf Hs].
  apply IH; [|assumption].
  now apply map2_Forall with (P := P) (Q := P).
Qed.

Lemma unrolled_sum_closed xs : Forall P xs -> P (unrolled_sum xs).
Proof.
  intros Hxs. unfold unrolled_sum.
  destruct (Forall_firstn_skipn 8 xs Hxs) as [Hf Hs].
  pose proof (add_blocks_closed (length xs / 8 - 1) _ _ Hf Hs) as Hr.
  destruct (add_blocks _ _ _) as [|r0 [|r1 [|r2 [|r3 [|r4 [|r5 [|r6 [|r7 [|]]]]]]]]];
    try (now apply sequential_sum_closed).
  repeat match goal with
         | H : Forall P (_ :: _) |- _ => inversion H; subst; clear H
         end.
  apply sequential_sum_closed.
  - auto 10.
  - now apply (Forall_firstn_skipn (8 * (length xs / 8)) xs).
Qed.

Lemma pairwise_sum_closed xs : Forall P xs -> P (pairwise_sum xs).
Proof.
  funelim (pairwise_sum xs); intros Hxs.
  - destruct (length xs <? 8)%nat.
    + now apply sequential_sum_closed.
    + now apply unrolled_sum_closed.
  - destruct (Forall_firstn_skipn (split_point (length xs)) xs Hxs).
    apply P_add; auto.
Qed.

Lemma np_sum_closed xs : Forall P xs -> P (np_sum xs).
Proof. intros H. apply P_add; [exact P_zero | now apply pairwise_sum_closed]. Qed.

End Closed.

(** *** Rounding keeps the sign and makes no NaN *)












(** *** The number of elements as a float *)

Lemma binary_round_aux_canonical sx mz ez :
  Zpos (digits2_pos mz) = 53%Z -> (-1074 <= ez <= 971)%Z ->
  binary_round_aux prec emax sx (Zpos mz) ez loc_Exact = S754_finite sx mz ez.
Proof.
  intros Hd He.
  assert (Hs : forall l, shr_fexp prec emax (Zpos mz) ez l
                         = (shr_record_of_loc (Zpos mz) l, ez)).
  { intros l. unfold shr_fexp, fexp, emin. cbn [Zdigits2]. rewrite Hd.
    change prec with 53%Z. change emax with 1024%Z.
    replace (Z.sub (Z.max (Z.sub (Z.add 53 ez) 53) (Z.sub (Z.sub 3 1024) 53)) ez)
      with 0%Z by lia.
    reflexivity. }
  unfold binary_round_aux. rewrite Hs.
  cbn [shr_record_of_loc shr_m loc_of_shr_record round_nearest_even].
  rewrite Hs. cbn [shr_record_of_loc shr_m].
  change prec with 53%Z. change emax with 1024%Z.
  replace (Z.leb ez (Z.sub 1024 53)) with true by (symmetry; apply Z.leb_le; lia).
  reflexivity.
Qed.

Lemma digits2_pos_iter_xO k : forall p,
  digits2_pos (Pos.iter xO p k) = (digits2_pos p + k)%positive.
Proof.
  induction k as [|k IH] using Pos.peano_ind; intros p.
  - cbn. lia.
  - rewrite Pos.iter_succ. cbn [digits2_pos]. rewrite IH. lia.
Qed.

Lemma digits2_pos_lower p : (2 ^ (Zpos (digits2_pos p) - 1) <= Zpos p)%Z.
Proof.
  induction p as [p IH|p IH|]; cbn [digits2_pos].
  - rewrite Pos2Z.inj_succ.
    replace (Z.succ (Zpos (digits2_pos p)) - 1)%Z
      with (Z.succ (Zpos (digits2_pos p) - 1)) by lia.
    rewrite Z.pow_succ_r by lia. lia.
  - rewrite Pos2Z.inj_succ.
    replace (Z.succ (Zpos (digits2_pos p)) - 1)%Z
      with (Z.succ (Zpos (digits2_pos p) - 1)) by lia.
    rewrite Z.pow_succ_r by lia. lia.
  - cbn. lia.
Qed.

Lemma digits2_pos_small p : (Zpos p < 2 ^ 53)%Z -> (Zpos (digits2_pos p) <= 53)%Z.
Proof.
  intros H. pose proof (digits2_pos_lower p) as Hl.
  destruct (Z.le_gt_cases (Zpos (digits2_pos p)) 53) as [|Hgt]; [assumption|].
  exfalso.
  assert (2 ^ 53 <= 2 ^ (Zpos (digits2_pos p) - 1))%Z
    by (apply Z.pow_le_mono_r; lia).
  lia.
Qed.

Lemma binary_round_small p :
  (Zpos p < 2 ^ 53)%Z ->
  exists m e, binary_round prec emax false p 0 = S754_finite false m e.
Proof.
  intros H. apply digits2_pos_small in H.
  unfold binary_round, fexp, emin, shl_align.
  change prec with 53%Z. change emax with 1024%Z.
  set (d := digits2_pos p) in *.
  replace (Z.sub (Z.max (Z.sub (Z.add (Zpos d) 0) 53) (Z.sub (Z.sub 3 1024) 53)) 0)
    with (Zpos d - 53)%Z by lia.
  replace (Z.max (Z.sub (Z.add (Zpos d) 0) 53) (Z.sub (Z.sub 3 1024) 53))
    with (Zpos d - 53)%Z by lia.
  destruct (Zpos d - 53)%Z as [|k|k] eqn:E; [| lia |].
  - exists p, 0%Z. apply binary_round_aux_canonical; [fold d; lia | lia].
  - exists (Pos.iter xO p k), (Zneg k).
    apply binary_round_aux_canonical; [|lia].
    rewrite digits2_pos_iter_xO. fold d. lia.
Qed.

(** Up to 2^53 elements the count is a positive float64, neither zero nor
    infinite. *)
Lemma of_nat_positive n :
  (0 < Z.of_nat n < 2 ^ 53)%Z ->
  exists m e, Prim2SF (of_nat n) = S754_finite false m e.
Proof.
  intros [Hlo Hhi]. unfold of_nat. rewrite of_uint63_spec, Uint63.of_Z_spec.
  rewrite Z.mod_small.
  - destruct (Z.of_nat n) as [|p|p]; try lia. now apply binary_round_small.
  - split; [lia|]. eapply Z.lt_trans; [exact Hhi|]. reflexivity.
Qed.

(** *** The sign bit through the operations *)









(** *** Sums and means of numbers that are zero or above *)











(** *** Validation *)

Lemma np_where_zero64_length y : length (np_where_zero y) = length y.
Proof. apply length_map. Qed.

Lemma np_where_zero64_finite y :
  forallb is_finite (np_where_zero y) = forallb is_finite y.
Proof.
  induction y as [|v y IH]; [reflexivity|].
  cbn [np_where_zero map forallb]. fold (np_where_zero y). rewrite IH.
  f_equal. destruct (v =? 0) eqn:E; [|reflexivity].
  replace (is_finite 1e-6) with true by reflexivity. symmetry.
  unfold is_finite, is_nan, is_infinity.
  rewrite eqb_spec in E. rewrite !eqb_spec, abs_spec.
  replace (Prim2SF 0) with (S754_zero false) in E by reflexivity.
  replace (Prim2SF infinity) with (S754_infinity false) by reflexivity.
  destruct (Prim2SF v) as [[]|[]| |[] mv ev]; try discriminate E; reflexivity.
Qed.

Lemma check_array_finite y :
  forallb is_finite y = true -> y <> [] -> check_array y = Ok tt.
Proof.
  intros Hfin Hne. unfold check_array.
  assert (Hn : existsb is_nan y = false /\ existsb is_infinity y = false).
  { clear Hne. induction y as [|v y IH]; [split; reflexivity|].
    cbn [forallb] in Hfin. apply andb_prop in Hfin as [Hv Hy].
    destruct (IH Hy) as [H1 H2]. cbn [existsb]. rewrite H1, H2.
    unfold is_finite in Hv. destruct (is_nan v), (is_infinity v);
      try discriminate Hv. split; reflexivity. }
  destruct Hn as [-> ->].
  destruct y; [congruence | reflexivity].
Qed.

Lemma check_array_not_finite y :
  forallb is_finite y = false -> raises "ValueError" (check_array y) = true.
Proof.
  intros Hfin. unfold check_array.
  destruct (existsb is_nan y) eqn:Hn; [reflexivity|].
  destruct (existsb is_infinity y) eqn:Hi; [reflexivity|].
  exfalso. induction y as [|v y IH]; [discriminate|].
  cbn [existsb forallb] in *. apply orb_false_elim in Hn as [Hn1 Hn2].
  apply orb_false_elim in Hi as [Hi1 Hi2].
  unfold is_finite at 1 in Hfin. rewrite Hn1, Hi1 in Hfin.
  cbn [orb negb andb] in Hfin. auto.
Qed.

Lemma check_array_raises_ValueError y :
  check_array y = Ok tt \/ raises "ValueError" (check_array y) = true.
Proof.
  unfold check_array.
  destruct (existsb is_nan y); [now right|].
  destruct (existsb is_infinity y); [now right|].
  destruct (length y =? 0)%nat; [now right | now left].
Qed.

(** *** The metrics of finite inputs *)

Lemma calculate_metrics64_value a p :
  length a = length p -> a <> [] ->
  forallb is_finite a = true -> forallb is_finite p = true ->
  calculate_metrics a p =
    Ok {| RMSE := sqrt (np_mean [np_mean (map2 (fun x y => (x - y) * (x - y))
                                      (np_where_zero a) (np_where_zero p))]);
          MAE := np_mean [np_mean (map2 (fun x y => abs (y - x))
                                      (np_where_zero a) (np_where_zero p))];
          SMAPE := 100 * np_mean (map2 smape_term
                                      (np_where_zero a) (np_where_zero p)) |}.
Proof.
  intros Hlen Hne Ha Hp.
  assert (Hc : check_reg_targets (np_where_zero a) (np_where_zero p) = Ok tt).
  { unfold check_reg_targets.
    rewrite !np_where_zero64_length, Hlen, Nat.eqb_refl. cbn [negb].
    rewrite check_array_finite; cbn [rbind Ok].
    - apply check_array_finite.
      + now rewrite np_where_zero64_finite.
      + destruct p; [destruct a; [congruence|discriminate] | discriminate].
    - now rewrite np_where_zero64_finite.
    - destruct a; [congruence | discriminate]. }
  unfold calculate_metrics, mean_squared_error, mean_absolute_error.
  rewrite Hc. reflexivity.
Qed.

Lemma calculate_metrics64_not_finite a p :
  length a = length p ->
  forallb is_finite a && forallb is_finite p = false ->
  raises "ValueError" (calculate_metrics a p) = true.
Proof.
  intros Hlen Hfin.
  unfold calculate_metrics, mean_squared_error, check_reg_targets.
  rewrite !np_where_zero64_length, Hlen, Nat.eqb_refl. cbn [negb].
  destruct (forallb is_finite a) eqn:Ha; cbn [andb] in Hfin.
  - destruct (check_array_raises_ValueError (np_where_zero a)) as [-> | Hr].
    + cbn [rbind Ok].
      pose proof (check_array_not_finite (np_where_zero p)) as Hr.
      rewrite np_where_zero64_finite in Hr. specialize (Hr Hfin).
      destruct (check_array (np_where_zero p)); [exact Hr | discriminate Hr].
    + destruct (check_array (np_where_zero a)); [exact Hr | discriminate Hr].
  - pose proof (check_array_not_finite (np_where_zero a)) as Hr.
    rewrite np_where_zero64_finite in Hr. specialize (Hr Ha).
    destruct (check_array (np_where_zero a)); [exact Hr | discriminate Hr].
Qed.






(** C9. [calculate_metrics] on ([0,0,0], [0,0,0]) raises nothing and
    returns SMAPE = 0 (as RMSE and MAE), not NaN: lines 25-26 turn every
    element into 1e-6, for which the SMAPE term is 0; on the zeros
    themselves the term is 0/0 = NaN, and so is its mean. *)
Theorem calculate_metrics_all_zero :
  Binary64.calculate_metrics [0; 0; 0] [0; 0; 0] =
    Ok {| RMSE := 0; MAE := 0; SMAPE := 0 |}
  /\ Binary64.np_where_zero [0; 0; 0] = [1e-6; 1e-6; 1e-6]
  /\ Binary64.smape_term 1e-6 1e-6 = 0
  /\ is_nan (Binary64.smape_term 0 0) = true
  /\ is_nan (100 * Binary64.np_mean
                     (map2 Binary64.smape_term [0; 0; 0] [0; 0; 0])) = true.
Proof. repeat split; vm_compute; reflexivity. Qed.

End Binary64Facts.

(** ** Lag frames *)

Lemma firstn_seq n start len :
  firstn n (seq start len) = seq start (Nat.min n len).
Proof.
  revert start len; induction n as [|n IH]; intros start [|len]; simpl; auto.
  now rewrite IH.
Qed.

Lemma nth_map2 {A B C} (f : A -> B -> C) xs ys t dx dy dz :
  (t < length xs)%nat -> (t < length ys)%nat ->
  nth t (map2 f xs ys) dz = f (nth t xs dx) (nth t ys dy).
Proof.
  revert ys t; induction xs as [|x xs IH]; intros [|y ys] [|t] Hx Hy;
    simpl in *; try lia; auto.
  apply IH; lia.
Qed.

Lemma shift_length ts i : length (shift ts i) = length ts.
Proof.
  unfold shift. rewrite length_firstn, length_app, repeat_length, length_map. lia.
Qed.

(** Past the padding, a shifted series holds the value [i] steps back. *)
Lemma shift_nth ts i t :
  (i <= t < length ts)%nat ->
  nth t (shift ts i) NaN = Num (nth (t - i) ts 0).
Proof.
  intros [Hi Ht]. unfold shift.
  rewrite nth_firstn.
  destruct (Nat.ltb_spec t (length ts)) as [_|]; [|lia].
  rewrite app_nth2; rewrite repeat_length; [|lia].
  rewrite (nth_indep _ NaN (Num 0)) by (rewrite length_map; lia).
  apply (map_nth Num).
Qed.

(** Row [t] of the transposed matrix collects entry [t] of every column. *)
Lemma transpose_rows {A} (d : A) n (columns : list (list A)) :
  columns <> [] ->
  Forall (fun c => length c = n) columns ->
  transpose columns = map (fun t => map (fun c => nth t c d) columns) (seq 0 n).
Proof.
  induction columns as [|c cs IH]; [congruence|].
  intros _ Hall. inversion Hall as [|? ? Hc Hcs]; subst.
  destruct cs as [|c' cs].
  - simpl. apply nth_ext with (d := [d]) (d' := [d]).
    + now rewrite !length_map, length_seq.
    + intros t Ht. rewrite length_map in Ht.
      rewrite (map_nth (fun x => [x])).
      rewrite (nth_indep _ [d] ((fun t0 => [nth t0 c d]) 0%nat))
        by now rewrite length_map, length_seq.
      rewrite (map_nth (fun t0 => [nth t0 c d])).
      now rewrite seq_nth.
  - change (transpose (c :: c' :: cs)) with (map2 cons c (transpose (c' :: cs))).
    rewrite IH by (congruence || assumption).
    apply nth_ext with (d := [d]) (d' := [d]).
    + now rewrite map2_length, !length_map, length_seq, Nat.min_id.
    + intros t Ht.
      rewrite map2_length, !length_map, length_seq, Nat.min_id in Ht.
      rewrite (nth_map2 _ _ _ _ d [d]) by (now rewrite ?length_map, ?length_seq).
      set (g := fun t0 => map (fun c0 => nth t0 c0 d) (c' :: cs)).
      set (h := fun t0 => map (fun c0 => nth t0 c0 d) (c :: c' :: cs)).
      rewrite (nth_indep (map g _) [d] (g 0%nat)) by now rewrite length_map, length_seq.
      rewrite (nth_indep (map h _) [d] (h 0%nat)) by now rewrite length_map, length_seq.
      rewrite (map_nth g), (map_nth h), seq_nth by assumption.
      reflexivity.
Qed.

Lemma lag_matrix_no_lag ts : lag_matrix ts 0 = [].
Proof. reflexivity. Qed.

Lemma lag_matrix_rows ts lags :
  (1 <= lags)%nat ->
  lag_matrix ts lags =
  map (lag_row ts lags) (seq lags (length ts - lags)).
Proof.
  intros Hlags. unfold lag_matrix, slice_from.
  destruct lags as [|l].
  - lia.
  - rewrite (transpose_rows NaN (length ts)).
    + rewrite skipn_map, skipn_seq. simpl (0 + S l)%nat.
      apply map_ext_in. intros t Ht. apply in_seq in Ht.
      unfold lag_row. rewrite map_map.
      apply map_ext_in. intros i Hi. apply in_seq in Hi.
      apply shift_nth. lia.
    + discriminate.
    + apply Forall_forall. intros c Hc. apply in_map_iff in Hc.
      destruct Hc as (i & <- & _). apply shift_length.
Qed.

Lemma lag_matrix_length ts lags :
  (1 <= lags)%nat -> length (lag_matrix ts lags) = (length ts - lags)%nat.
Proof.
  intros H. now rewrite lag_matrix_rows, length_map, length_seq.
Qed.

Lemma slice_drop_last_length {A} k (xs : list A) :
  length (slice_drop_last k xs) = (length xs - k)%nat.
Proof. unfold slice_drop_last. rewrite length_firstn. lia. Qed.

Lemma slice_last_length {A} k (xs : list A) :
  length (slice_last k xs) = Nat.min k (length xs).
Proof. unfold slice_last. rewrite length_skipn. lia. Qed.

Lemma slice_drop_last_map {A B} (f : A -> B) k xs :
  slice_drop_last k (map f xs) = map f (slice_drop_last k xs).
Proof. unfold slice_drop_last. now rewrite length_map, firstn_map. Qed.

Lemma slice_last_map {A B} (f : A -> B) k xs :
  slice_last k (map f xs) = map f (slice_last k xs).
Proof. unfold slice_last. now rewrite length_map, skipn_map. Qed.

Lemma slice_drop_last_short {A} k (xs : list A) :
  (length xs <= k)%nat -> slice_drop_last k xs = [].
Proof.
  intros H. unfold slice_drop_last.
  replace (length xs - k)%nat with 0%nat by lia. reflexivity.
Qed.

Lemma slice_last_short {A} k (xs : list A) :
  (length xs <= k)%nat -> slice_last k xs = xs.
Proof.
  intros H. unfold slice_last.
  replace (length xs - k)%nat with 0%nat by lia. reflexivity.
Qed.

(** The labels left for training are those of the series without its
    last [k] observations. *)
Lemma train_labels_history {A} k (ts : list A) lags :
  slice_drop_last k (slice_from lags ts) = slice_from lags (slice_drop_last k ts).
Proof.
  unfold slice_drop_last, slice_from.
  rewrite length_skipn, skipn_firstn_comm.
  f_equal. lia.
Qed.

(** The rows left for training are the lag matrix of the series without
    its last [k] observations: no training row reads a withheld value. *)
Lemma train_rows_history k ts lags :
  slice_drop_last k (lag_matrix ts lags) = lag_matrix (slice_drop_last k ts) lags.
Proof.
  destruct lags as [|l]; [reflexivity|].
  rewrite !lag_matrix_rows by lia.
  rewrite slice_drop_last_map, slice_drop_last_length.
  unfold slice_drop_last at 1. rewrite length_seq, firstn_seq.
  replace (Nat.min (length ts - S l - k) (length ts - S l))
    with (length ts - k - S l)%nat by lia.
  apply map_ext_in. intros t Ht. apply in_seq in Ht.
  unfold lag_row. apply map_ext_in. intros i Hi. apply in_seq in Hi.
  f_equal. unfold slice_drop_last.
  rewrite nth_firstn.
  destruct (Nat.ltb_spec (t - i) (length ts - k)); [reflexivity | lia].
Qed.

Lemma train_frame_empty ts lags :
  (length ts <= lags + 12)%nat ->
  slice_drop_last 12 (lag_matrix ts lags) = []
  /\ slice_drop_last 12 (slice_from lags ts) = [].
Proof.
  intros H. split.
  - destruct lags as [|l]; [reflexivity|].
    apply slice_drop_last_short. rewrite lag_matrix_length; lia.
  - apply slice_drop_last_short. unfold slice_from. rewrite length_skipn. lia.
Qed.

Lemma predict_rows_length ts lags :
  (1 <= lags)%nat ->
  length (slice_last 12 (lag_matrix ts lags)) = Nat.min 12 (length ts - lags).
Proof.
  intros H. now rewrite slice_last_length, lag_matrix_length.
Qed.

Lemma reshape3_ok lags X :
  (1 <= lags)%nat -> reshape3 lags X = Ok (map (map (fun x => [x])) X).
Proof. destruct lags; [lia | reflexivity]. Qed.

Lemma concat_singletons {A} (rows : list (list A)) :
  Forall (fun row => length row = 1%nat) rows ->
  length (concat rows) = length rows.
Proof.
  induction 1 as [|row rows Hrow _ IH]; simpl; auto.
  rewrite length_app, IH, Hrow. reflexivity.
Qed.

(** ** Running the script: inversion and traces *)

Section RunFacts.

Context {L : Libraries}.

Lemma bind_inr {A B} (c : M A) (k : A -> M B) w b w' :
  bind c k w = (inr b, w') ->
  exists a w1, c w = (inr a, w1) /\ k a w1 = (inr b, w').
Proof.
  unfold bind. destruct (c w) as [[e|a] w1]; intros H; [discriminate|eauto].
Qed.

Lemma call_inr {A} ev (op : lib_state -> result A * lib_state) w a w' :
  call ev op w = (inr a, w') ->
  exists s', op (libs w) = (inr a, s') /\ w' = World s' (trace w ++ [ev]).
Proof.
  unfold call. destruct (op (libs w)) as [r s'].
  intros H; inversion H; subst; eauto.
Qed.

Lemma call_fst {A} ev (op : lib_state -> result A * lib_state) w :
  fst (call ev op w) = fst (op (libs w)).
Proof. unfold call. now destruct (op (libs w)). Qed.

Lemma appends_refl P w : appends P w w.
Proof. exists []. now rewrite app_nil_r. Qed.

Lemma appends_trans P w1 w2 w3 :
  appends P w1 w2 -> appends P w2 w3 -> appends P w1 w3.
Proof.
  intros (e1 & H1 & F1) (e2 & H2 & F2). exists (e1 ++ e2). split.
  - now rewrite H2, H1, app_assoc.
  - now rewrite forallb_app, F1, F2.
Qed.

Lemma appends_In P w w' ev : appends P w w' -> In ev (trace w) -> In ev (trace w').
Proof. intros (evs & -> & _) H. apply in_or_app; auto. Qed.

Lemma appends_filter P Q w w' :
  (forall ev, P ev = true -> Q ev = false) ->
  appends P w w' -> filter Q (trace w') = filter Q (trace w).
Proof.
  intros HPQ (evs & -> & F). rewrite filter_app.
  replace (filter Q evs) with (@nil event); [now rewrite app_nil_r|].
  induction evs as [|ev evs IH]; simpl in *; auto.
  apply andb_prop in F as [F1 F2]. rewrite (HPQ ev F1). auto.
Qed.

Lemma quiet_ret {A} P (a : A) : quiet P (ret a).
Proof. intros w. apply appends_refl. Qed.

Lemma quiet_raise {A} P e : quiet P (@raise L A e).
Proof. intros w. apply appends_refl. Qed.

Lemma quiet_lift {A} P (r : result A) : quiet P (lift r).
Proof. intros w. apply appends_refl. Qed.

Lemma quiet_emit P ev : P ev = true -> quiet P (emit ev).
Proof.
  intros H w. exists [ev]. simpl. now rewrite H.
Qed.

Lemma quiet_call {A} P ev (op : lib_state -> result A * lib_state) :
  P ev = true -> quiet P (call ev op).
Proof.
  intros H w. unfold call. destruct (op (libs w)) as [r s'].
  exists [ev]. simpl. now rewrite H.
Qed.

Lemma quiet_bind {A B} P (c : M A) (k : A -> M B) :
  quiet P c -> (forall a, quiet P (k a)) -> quiet P (bind c k).
Proof.
  intros Hc Hk w. unfold bind. specialize (Hc w).
  destruct (c w) as [[e|a] w1]; simpl in *; [assumption|].
  eapply appends_trans; [eassumption | apply Hk].
Qed.

Lemma quiet_try_except {A} P (c : M A) (h : exn -> M A) :
  quiet P c -> (forall e, quiet P (h e)) -> quiet P (try_except c h).
Proof.
  intros Hc Hh w. unfold try_except. specialize (Hc w).
  destruct (c w) as [[e|a] w1]; simpl in *; [|assumption].
  eapply appends_trans; [eassumption | apply Hh].
Qed.

Lemma quiet_executor_submit P (task : M (list R)) :
  quiet P task -> quiet P (executor_submit task).
Proof.
  intros H w. unfold executor_submit. specialize (H w).
  now destruct (task w).
Qed.

End RunFacts.

(** ** The adapters *)

Section AdapterFacts.

Context {L : Libraries}.

Ltac quiet_steps :=
  repeat first
    [ apply quiet_bind; [|intros ?]
    | apply quiet_call; reflexivity
    | apply quiet_emit; reflexivity
    | apply quiet_ret
    | apply quiet_lift
    | apply quiet_raise ].

Lemma adapter_quiet c ts m : quiet not_dataframe (adapter c ts m).
Proof.
  destruct m; unfold adapter, run_ets_model, run_arima_model,
    run_xgboost_model, run_lstm_model; quiet_steps.
  destruct (cfg_use_seasonality c); quiet_steps.
Qed.

(** The fitting calls in the trace of a call followed by more of the
    script. *)
Lemma fit_events_app tr1 tr2 :
  fit_events (tr1 ++ tr2) = fit_events tr1 ++ fit_events tr2.
Proof. apply filter_app. Qed.

Lemma adapter_length_ETS c ts w v w' :
  LibrariesContract L ->
  adapter c ts ETS w = (inr v, w') -> length v = 12%nat.
Proof.
  intros HL H. unfold adapter, run_ets_model in H.
  apply bind_inr in H as (model & w1 & _ & H).
  apply call_inr in H as (s' & H & _).
  eapply ets_forecast_length; eassumption.
Qed.

Lemma adapter_length_ARIMA c ts w v w' :
  LibrariesContract L ->
  adapter c ts ARIMA w = (inr v, w') -> length v = 12%nat.
Proof.
  intros HL H. unfold adapter, run_arima_model in H.
  apply bind_inr in H as (model & w1 & _ & H).
  apply call_inr in H as (s' & H & _).
  eapply arima_forecast_length; eassumption.
Qed.

Lemma adapter_length_XGBoost c ts w v w' :
  LibrariesContract L ->
  adapter c ts XGBoost w = (inr v, w') ->
  length v = Nat.min 12 (length (lag_matrix ts (cfg_lags c))).
Proof.
  intros HL H. unfold adapter, run_xgboost_model in H.
  apply bind_inr in H as (model & w1 & _ & H).
  apply call_inr in H as (s' & H & _).
  apply XGBRegressor_predict_length in H.
  now rewrite H, slice_last_length.
Qed.

Lemma adapter_length_LSTM c ts w v w' :
  LibrariesContract L ->
  adapter c ts LSTM_ w = (inr v, w') ->
  length v = Nat.min 12 (length (lag_matrix ts (cfg_lags c))).
Proof.
  intros HL H. unfold adapter, run_lstm_model in H.
  apply bind_inr in H as (X3 & w1 & HX & H).
  apply bind_inr in H as (model & w2 & _ & H).
  apply bind_inr in H as (out & w3 & H & Hret).
  apply call_inr in H as (s' & H & _).
  apply Sequential_predict_shape in H as [Hlen Hrows].
  inversion Hret; subst.
  rewrite (concat_singletons _ Hrows), Hlen, slice_last_length.
  unfold lift in HX. inversion HX as [HX'].
  destruct (cfg_lags c); [discriminate|].
  simpl in HX'. inversion HX'. now rewrite length_map.
Qed.

End AdapterFacts.

Section AdapterTraces.

Context {L : Libraries}.

Ltac destruct_calls :=
  repeat match goal with
  | |- context [match ?op (libs ?w) with pair _ _ => _ end] =>
      destruct (op (libs w)) as [[?|?] ?]; simpl
  | |- context [match ?op ?s with pair _ _ => _ end] =>
      destruct (op s) as [[?|?] ?]; simpl
  end.

Ltac fit_events_done :=
  rewrite ?fit_events_app; simpl; rewrite ?app_nil_r; reflexivity.

Lemma fit_events_ETS c ts w :
  fit_events (trace (snd (adapter c ts ETS w)))
  = fit_events (trace w) ++ [FitSeries "ExponentialSmoothing" ts].
Proof.
  unfold adapter, run_ets_model, bind, call.
  destruct_calls; fit_events_done.
Qed.

Lemma fit_events_ARIMA c ts w :
  fit_events (trace (snd (adapter c ts ARIMA w)))
  = fit_events (trace w)
    ++ [FitSeries (if cfg_use_seasonality c then "SARIMAX" else "ARIMA") ts].
Proof.
  unfold adapter, run_arima_model, bind, call.
  destruct (cfg_use_seasonality c); destruct_calls; fit_events_done.
Qed.

Lemma fit_events_XGBoost c ts w :
  fit_events (trace (snd (adapter c ts XGBoost w)))
  = fit_events (trace w)
    ++ [FitFrame "XGBRegressor"
          (lag_matrix (slice_drop_last 12 ts) (cfg_lags c))
          (slice_from (cfg_lags c) (slice_drop_last 12 ts))].
Proof.
  unfold adapter, run_xgboost_model, bind, call.
  rewrite train_rows_history, train_labels_history.
  destruct_calls; fit_events_done.
Qed.

Lemma fit_events_LSTM c ts w :
  (1 <= cfg_lags c)%nat ->
  fit_events (trace (snd (adapter c ts LSTM_ w)))
  = fit_events (trace w)
    ++ [FitTensor "Sequential"
          (map (map (fun x => [x]))
               (lag_matrix (slice_drop_last 12 ts) (cfg_lags c)))
          (slice_from (cfg_lags c) (slice_drop_last 12 ts))].
Proof.
  intros Hlags. unfold adapter, run_lstm_model.
  rewrite reshape3_ok by assumption.
  unfold bind, lift, call, ret, Ok. cbv beta iota.
  rewrite slice_drop_last_map, train_rows_history, train_labels_history.
  destruct_calls; fit_events_done.
Qed.

(** On a series of at most [lags + 12] observations the tree adapter is
    a fit on an empty frame followed by a prediction on every row. *)
Lemma run_xgboost_model_short ts lags lr n d :
  (length ts <= lags + 12)%nat ->
  run_xgboost_model ts lags lr n d =
  (model <- call (FitFrame "XGBRegressor" [] []) (XGBRegressor_fit lr n d [] []) ;;
   call (PredictFrame "XGBRegressor" (lag_matrix ts lags))
        (XGBRegressor_predict model (lag_matrix ts lags)))%run.
Proof.
  intros H. unfold run_xgboost_model.
  destruct (train_frame_empty ts lags H) as [-> ->].
  rewrite slice_last_short; [reflexivity|].
  destruct lags as [|l]; [simpl; lia|].
  rewrite lag_matrix_length; lia.
Qed.

Lemma run_lstm_model_short ts lags units layers dropout epochs batch_size :
  (1 <= lags)%nat -> (length ts <= lags + 12)%nat ->
  run_lstm_model ts lags units layers dropout epochs batch_size =
  (model <- call (FitTensor "Sequential" [] [])
                 (Sequential_fit (lstm_stack units layers dropout) "adam" "mse"
                    [] [] epochs batch_size) ;;
   out <- call (PredictTensor "Sequential"
                  (map (map (fun x => [x])) (lag_matrix ts lags)))
               (Sequential_predict model
                  (map (map (fun x => [x])) (lag_matrix ts lags))) ;;
   ret (concat out))%run.
Proof.
  intros Hlags H. unfold run_lstm_model.
  rewrite reshape3_ok by assumption.
  unfold bind at 1, lift, Ok. cbv beta iota.
  rewrite slice_drop_last_map.
  destruct (train_frame_empty ts lags H) as [-> ->].
  rewrite slice_last_short; [reflexivity|].
  rewrite length_map, lag_matrix_length; lia.
Qed.

End AdapterTraces.

(** ** The scoring loop *)

Section OrchestratorFacts.

Context {L : Libraries}.

Lemma dict_get_set {V} (d : list (string * V)) k v k' :
  dict_get (dict_set d k v) k' =
  if String.eqb k k' then Some v else dict_get d k'.
Proof.
  induction d as [|[k0 v0] d IH]; simpl.
  - reflexivity.
  - destruct (String.eqb_spec k0 k) as [->|Hk0]; simpl.
    + destruct (String.eqb k k'); reflexivity.
    + rewrite IH. destruct (String.eqb_spec k0 k') as [->|Hk0'].
      * destruct (String.eqb_spec k k'); [congruence | reflexivity].
      * reflexivity.
Qed.

(** The futures the pool hands back: each adapter run once, in
    submission order, on the world its predecessor left. *)
Lemma submit_all_run c ts w :
  let a1 := adapter c ts ETS w in
  let a2 := adapter c ts ARIMA (snd a1) in
  let a3 := adapter c ts XGBoost (snd a2) in
  let a4 := adapter c ts LSTM_ (snd a3) in
  submit_all c ts w =
  (inr [("ETS"%string, fst a1); ("ARIMA"%string, fst a2);
        ("XGBoost"%string, fst a3); ("LSTM"%string, fst a4)], snd a4).
Proof.
  cbv zeta. unfold submit_all, bind, executor_submit, ret.
  destruct (adapter c ts ETS w) as [r1 w1]; cbn [fst snd].
  destruct (adapter c ts ARIMA w1) as [r2 w2]; cbn [fst snd].
  destruct (adapter c ts XGBoost w2) as [r3 w3]; cbn [fst snd].
  destruct (adapter c ts LSTM_ w3) as [r4 w4]; cbn [fst snd].
  reflexivity.
Qed.

(** One pass of the loop of lines 187-192 never raises, leaves the
    libraries alone, and for each future either stores its scores or
    reports its failure. *)
Lemma collect_results_run ts total futures :
  NoDup (map fst futures) ->
  forall i results w,
  exists results',
    fst (collect_results ts total i futures results w) = inr results'
    /\ libs (snd (collect_results ts total i futures results w)) = libs w
    /\ appends loop_event w (snd (collect_results ts total i futures results w))
    /\ (forall name, ~ In name (map fst futures) ->
          dict_get results' name = dict_get results name)
    /\ (forall name fut, In (name, fut) futures ->
          match future_scores ts fut with
          | inr scores => dict_get results' name = Some scores
          | inl e =>
              dict_get results' name = dict_get results name
              /\ In (StError (name ++ " failed: " ++ exn_msg e))
                    (trace (snd (collect_results ts total i futures results w)))
          end).
Proof.
  induction futures as [|[model fut] rest IH]; intros Hnd i results w.
  - exists results. simpl. repeat split; auto using appends_refl.
    intros name f [].
  - inversion Hnd as [|? ? Hnotin Hnd']; subst.
    cbn [collect_results].
    set (step := try_except _ _).
    assert (Hstep :
      exists r1 w1, step w = (inr r1, w1) /\ libs w1 = libs w
        /\ appends loop_event w w1
        /\ match future_scores ts fut with
           | inr scores => r1 = dict_set results model scores
           | inl e => r1 = results
                      /\ In (StError (model ++ " failed: " ++ exn_msg e)) (trace w1)
           end).
    { subst step. unfold try_except, bind, future_result, lift, future_scores, rbind.
      destruct fut as [e|forecast]; cbv beta iota.
      - unfold emit, ret. cbv beta iota.
        do 2 eexists. split; [reflexivity|]. simpl. repeat split.
        + exists [StError (model ++ " failed: " ++ exn_msg e)]. split; reflexivity.
        + apply in_or_app. right. left. reflexivity.
      - destruct (calculate_metrics (slice_last 12 ts) forecast) as [e|scores];
          cbv beta iota.
        + unfold emit, ret. cbv beta iota.
          do 2 eexists. split; [reflexivity|]. simpl. repeat split.
          * exists [StError (model ++ " failed: " ++ exn_msg e)]. split; reflexivity.
          * apply in_or_app. right. left. reflexivity.
        + unfold ret. do 2 eexists. split; [reflexivity|].
          repeat split. apply appends_refl. }
    destruct Hstep as (r1 & w1 & Hrun & Hlibs1 & Happ1 & Hr1).
    set (w2 := World (libs w1) (trace w1 ++ [StProgressFloat (INR i / INR total)])).
    match goal with
    | |- context [fst (?run w) = _] =>
        assert (Heq : run w = collect_results ts total (S i) rest r1 w2)
          by (unfold bind at 1; rewrite Hrun; reflexivity);
        rewrite Heq; clear Heq
    end.
    assert (Happ2 : appends loop_event w w2).
    { eapply appends_trans; [exact Happ1|].
      exists [StProgressFloat (INR i / INR total)]. split; reflexivity. }
    destruct (IH Hnd' (S i) r1 w2) as (results' & Hfst & Hlibs & Happ & Hout & Hin).
    exists results'. split; [exact Hfst|]. split; [|split; [|split]].
    + rewrite Hlibs. exact Hlibs1.
    + eapply appends_trans; eassumption.
    + intros name Hname. simpl in Hname.
      rewrite Hout by tauto.
      destruct (future_scores ts fut) as [e|scores].
      * destruct Hr1 as [-> _]. reflexivity.
      * subst r1. rewrite dict_get_set.
        destruct (String.eqb_spec model name); [tauto | reflexivity].
    + intros name f [Heq|Hrest].
      * inversion Heq; subst name f.
        rewrite (Hout model Hnotin).
        destruct (future_scores ts fut) as [e|scores].
        -- destruct Hr1 as [-> Hin1]. split; [reflexivity|].
           eapply appends_In; [exact Happ|].
           apply in_or_app. left. exact Hin1.
        -- subst r1. rewrite dict_get_set, String.eqb_refl. reflexivity.
      * specialize (Hin name f Hrest).
        assert (Hne : model <> name).
        { intros ->. apply Hnotin. apply in_map_iff. exists (name, f). auto. }
        destruct (future_scores ts f) as [e|scores]; [|exact Hin].
        destruct Hin as [Hget Herr]. split; [|exact Herr].
        rewrite Hget.
        destruct (future_scores ts fut) as [e'|scores'].
        -- destruct Hr1 as [-> _]. reflexivity.
        -- subst r1. rewrite dict_get_set.
           destruct (String.eqb_spec model name); [congruence | reflexivity].
Qed.

Lemma collect_results_quiet ts total futures i results :
  quiet not_dataframe (collect_results ts total i futures results).
Proof.
  revert i results. induction futures as [|[model fut] rest IH]; intros i results.
  - apply quiet_ret.
  - cbn [collect_results].
    apply quiet_bind; [|intros r; apply quiet_bind; [|intros _; apply IH]].
    + apply quiet_try_except.
      * apply quiet_bind; [apply quiet_lift|intros f].
        apply quiet_bind; [apply quiet_lift|intros s]. apply quiet_ret.
      * intros e. apply quiet_bind; [|intros _; apply quiet_ret].
        apply quiet_emit; reflexivity.
    + apply quiet_emit; reflexivity.
Qed.

Lemma submit_all_quiet c ts : quiet not_dataframe (submit_all c ts).
Proof.
  unfold submit_all.
  repeat (apply quiet_bind;
          [apply quiet_executor_submit, adapter_quiet | intros ?]).
  apply quiet_ret.
Qed.

Lemma run_models_in_parallel_quiet c ts :
  quiet not_dataframe (run_models_in_parallel c ts).
Proof.
  unfold run_models_in_parallel.
  apply quiet_bind; [apply submit_all_quiet | intros futures].
  apply quiet_bind; [apply collect_results_quiet | intros results].
  apply quiet_ret.
Qed.

Lemma ax_plot_quiet x y label fig : quiet not_dataframe (ax_plot x y label fig).
Proof.
  unfold ax_plot. destruct (length x =? length y)%nat;
    [apply quiet_ret | apply quiet_raise].
Qed.

Lemma plot_forecasts_quiet ts forecasts fig :
  quiet not_dataframe (plot_forecasts ts forecasts fig).
Proof.
  revert fig. induction forecasts as [|[label f] rest IH]; intros fig.
  - apply quiet_ret.
  - cbn [plot_forecasts]. apply quiet_bind; [apply ax_plot_quiet | intros; apply IH].
Qed.

Lemma recompute_forecasts_quiet c ts :
  quiet not_dataframe (recompute_forecasts c ts).
Proof.
  unfold recompute_forecasts.
  repeat (apply quiet_bind; [apply adapter_quiet | intros ?]).
  apply quiet_ret.
Qed.

Lemma visualization_quiet c ts : quiet not_dataframe (visualization c ts).
Proof.
  unfold visualization.
  apply quiet_bind; [apply ax_plot_quiet | intros fig].
  apply quiet_bind; [apply recompute_forecasts_quiet | intros forecasts].
  apply quiet_bind; [apply plot_forecasts_quiet | intros fig'].
  apply quiet_bind; [apply quiet_emit; reflexivity | intros _].
  apply quiet_ret.
Qed.

Lemma dict_get_In {V} (d : list (string * V)) k v :
  dict_get d k = Some v -> In (k, v) d.
Proof.
  induction d as [|[k0 v0] d IH]; simpl; [discriminate|].
  destruct (String.eqb_spec k0 k) as [->|_]; intros H.
  - inversion H. auto.
  - auto.
Qed.

Lemma dict_get_NoDup {V} (d : list (string * V)) k v :
  NoDup (map fst d) -> In (k, v) d -> dict_get d k = Some v.
Proof.
  induction d as [|[k0 v0] d IH]; simpl; intros Hnd Hin; [contradiction|].
  inversion Hnd as [|? ? Hnotin Hnd']; subst.
  destruct Hin as [Heq|Hin].
  - inversion Heq; subst. now rewrite String.eqb_refl.
  - destruct (String.eqb_spec k0 k) as [->|_]; [|auto].
    exfalso. apply Hnotin. apply in_map_iff. exists (k, v). auto.
Qed.

(** The futures and the results after lines 178-192. *)
Lemma run_models_in_parallel_run c ts w :
  exists futures results w',
    run_models_in_parallel c ts w = (inr (futures, results), w')
    /\ fst (submit_all c ts w) = inr futures
    /\ libs w' = libs (snd (submit_all c ts w))
    /\ appends not_dataframe w w'
    /\ NoDup (map fst futures)
    /\ (forall m, exists wm,
          dict_get futures (method_name m) = Some (fst (adapter c ts m wm)))
    /\ (forall name, ~ In name (map fst futures) -> dict_get results name = None)
    /\ (forall name fut, In (name, fut) futures ->
          match future_scores ts fut with
          | inr scores => dict_get results name = Some scores
          | inl e =>
              dict_get results name = None
              /\ In (StError (name ++ " failed: " ++ exn_msg e)) (trace w')
          end).
Proof.
  pose proof (run_models_in_parallel_quiet c ts w) as Hq.
  pose proof (submit_all_run c ts w) as Hs. cbv zeta in Hs.
  match type of Hs with
  | _ = (inr ?f, ?w1') => set (futures := f) in *; set (w1 := w1') in *
  end.
  assert (Hnd : NoDup (map fst futures)).
  { subst futures. cbn [map fst].
    repeat constructor; cbn [In]; intuition discriminate. }
  assert (Hrun : exists results w2,
            run_models_in_parallel c ts w = (inr (futures, results), w2)
            /\ libs w2 = libs w1
            /\ (forall name, ~ In name (map fst futures) ->
                  dict_get results name = None)
            /\ (forall name fut, In (name, fut) futures ->
                  match future_scores ts fut with
                  | inr scores => dict_get results name = Some scores
                  | inl e =>
                      dict_get results name = None
                      /\ In (StError (name ++ " failed: " ++ exn_msg e)) (trace w2)
                  end)).
  { unfold run_models_in_parallel. unfold bind at 1. rewrite Hs.
    cbv beta iota. unfold bind, ret.
    match goal with
    | |- context [collect_results ?a ?b ?i ?fs ?r ?w0] =>
        destruct (collect_results_run a b fs Hnd i r w0)
          as (results & Hfst & Hlibs & _ & Hout & Hin);
        destruct (collect_results a b i fs r w0) as [rr w2]
    end.
    cbn [fst snd] in *. subst rr. exists results, w2.
    split; [reflexivity|]. split; [exact Hlibs|]. split; [exact Hout | exact Hin]. }
  destruct Hrun as (results & w2 & Hrun & Hlibs & Hout & Hin).
  rewrite Hrun in Hq. cbn [snd] in Hq.
  exists futures, results, w2.
  split; [exact Hrun|]. rewrite Hs. cbn [fst snd].
  split; [reflexivity|]. split; [exact Hlibs|]. split; [exact Hq|].
  split; [exact Hnd|]. split; [|split; [exact Hout | exact Hin]].
  intros m. subst futures. destruct m; cbn; eauto.
Qed.

(** C3 (as amended). After the scoring loop the [results] dictionary has
    an entry, the metric set alone, for exactly the methods whose adapter
    and whose scoring succeeded; a method whose adapter or scoring raised
    has no entry in [results], and its failure is reported in a Streamlit
    error message "<method> failed: <reason>".  So each of the four
    methods has either its scores in [results] or an error message; the
    loop itself never raises. *)
Theorem results_hold_scores_or_failure_is_reported c ts w :
  exists futures results w',
    run_models_in_parallel c ts w = (inr (futures, results), w')
    /\ forall m, exists fut,
         dict_get futures (method_name m) = Some fut
         /\ match future_scores ts fut with
            | inr scores => dict_get results (method_name m) = Some scores
            | inl e =>
                dict_get results (method_name m) = None
                /\ In (StError (method_name m ++ " failed: " ++ exn_msg e))
                      (trace w')
            end.
Proof.
  destruct (run_models_in_parallel_run c ts w)
    as (futures & results & w' & Hrun & _ & _ & _ & _ & Hfut & _ & Hin).
  exists futures, results, w'. split; [exact Hrun|].
  intros m. destruct (Hfut m) as [wm Hget].
  eexists. split; [exact Hget|].
  apply Hin. apply dict_get_In. exact Hget.
Qed.

(** ** The whole run *)

Lemma run_forecast_unfold c ts w :
  let w0 := World (libs w) (trace w ++ [StProgressInt 0]) in
  let r1 := run_models_in_parallel c ts w0 in
  let r2 := visualization c ts (snd r1) in
  run_forecast c ts w =
  match fst r1 with
  | inl e => (inl e, snd r1)
  | inr scored =>
      match fst r2 with
      | inl e => (inl e, snd r2)
      | inr _ => metrics_table (snd scored) (snd r2)
      end
  end.
Proof.
  cbv zeta. unfold run_forecast. unfold bind at 1, emit at 1. cbv beta iota.
  unfold bind at 1.
  destruct (run_models_in_parallel c ts _) as [[e|scored] w1]; cbn [fst snd];
    [reflexivity|].
  unfold bind at 1.
  destruct (visualization c ts w1) as [[e|forecasts] w2]; reflexivity.
Qed.

Lemma ax_plot_actual ts w :
  ax_plot (seq 0 (length ts)) ts "Actual" [] w
  = (inr [("Actual"%string, seq 0 (length ts), ts)], w).
Proof.
  unfold ax_plot. now rewrite length_seq, Nat.eqb_refl.
Qed.

(** The second round of adapter calls stops at the first that raises. *)
Lemma recompute_forecasts_raises c ts bad e :
  (forall w, fst (adapter c ts bad w) = inl e) ->
  (forall m w, m <> bad -> succeeds (fst (adapter c ts m w)) = true) ->
  forall w, fst (recompute_forecasts c ts w) = inl e.
Proof.
  intros Hbad Hgood w. unfold recompute_forecasts, bind.
  assert (Hstep : forall m w0,
            (exists w1, adapter c ts m w0 = (inl e, w1) /\ m = bad)
            \/ (exists v w1, adapter c ts m w0 = (inr v, w1) /\ m <> bad)).
  { intros m w0. destruct (adapter c ts m w0) as [[e'|v] w1] eqn:E.
    - left. exists w1. assert (m = bad).
      { destruct m, bad; try reflexivity;
          match goal with
          | _ : adapter c ts ?m0 w0 = _ |- _ =>
              assert (Hs : succeeds (fst (adapter c ts m0 w0)) = true)
                by (apply Hgood; discriminate);
              rewrite E in Hs; discriminate
          end. }
      subst m. specialize (Hbad w0). rewrite E in Hbad. simpl in Hbad.
      inversion Hbad; subst. auto.
    - right. exists v, w1. split; [reflexivity|].
      intros ->. specialize (Hbad w0). rewrite E in Hbad. discriminate. }
  destruct (Hstep ETS w) as [(w1 & -> & _)|(v1 & w1 & -> & N1)]; [reflexivity|].
  destruct (Hstep ARIMA w1) as [(w2 & -> & _)|(v2 & w2 & -> & N2)]; [reflexivity|].
  destruct (Hstep XGBoost w2) as [(w3 & -> & _)|(v3 & w3 & -> & N3)]; [reflexivity|].
  destruct (Hstep LSTM_ w3) as [(w4 & -> & _)|(v4 & w4 & -> & N4)]; [reflexivity|].
  destruct bad; congruence.
Qed.

Lemma visualization_raises c ts w e :
  fst (recompute_forecasts c ts w) = inl e ->
  fst (visualization c ts w) = inl e.
Proof.
  intros H. unfold visualization. unfold bind at 1.
  rewrite ax_plot_actual. unfold bind at 1.
  destruct (recompute_forecasts c ts w) as [[e'|fs] w1]; simpl in H.
  - inversion H; subst. reflexivity.
  - discriminate.
Qed.

(** C1 (what the code does). When one adapter fails on every call and the
    three others succeed, the scoring loop catches the failure and
    reports it, but the run does not complete: the second round of
    adapter calls (lines 200-205) raises the same exception outside any
    [try], so the run ends with that exception and neither the plot nor
    the table of metrics is shown. *)
Theorem run_forecast_aborts_on_failing_adapter c ts bad e :
  (forall w, fst (adapter c ts bad w) = inl e) ->
  (forall m w, m <> bad -> succeeds (fst (adapter c ts m w)) = true) ->
  forall w,
    fst (run_forecast c ts w) = inl e
    /\ In (StError (method_name bad ++ " failed: " ++ exn_msg e))
          (trace (snd (run_forecast c ts w)))
    /\ filter is_dataframe (trace (snd (run_forecast c ts w)))
       = filter is_dataframe (trace w).
Proof.
  intros Hbad Hgood w.
  pose proof (run_forecast_unfold c ts w) as Hrun. cbv zeta in Hrun.
  set (w0 := World (libs w) (trace w ++ [StProgressInt 0])) in *.
  destruct (run_models_in_parallel_run c ts w0)
    as (futures & results & w1 & Hpar & _ & _ & Happ1 & _ & Hfut & _ & Hin).
  rewrite Hpar in Hrun. cbn [fst snd] in Hrun.
  pose proof (visualization_raises c ts w1 e
                (recompute_forecasts_raises c ts bad e Hbad Hgood w1)) as Hvis.
  rewrite Hvis in Hrun.
  pose proof (visualization_quiet c ts w1) as Happ2.
  assert (Happ0 : appends not_dataframe w w0).
  { exists [StProgressInt 0]. split; reflexivity. }
  rewrite Hrun. cbn [fst snd]. split; [reflexivity|]. split.
  - eapply appends_In; [exact Happ2|].
    destruct (Hfut bad) as [wm Hget].
    pose proof (Hin _ _ (dict_get_In _ _ _ Hget)) as Hscore.
    rewrite Hbad in Hscore. exact (proj2 Hscore).
  - apply appends_filter with (P := not_dataframe).
    + intros ev H. unfold not_dataframe in H.
      now destruct (is_dataframe ev).
    + eapply appends_trans; [exact Happ0|].
      eapply appends_trans; [exact Happ1 | exact Happ2].
Qed.

(** ** Two calls of one adapter *)

Lemma state_blind_ret {A} (a : A) : state_blind (ret a).
Proof. intros w w'. reflexivity. Qed.

Lemma state_blind_lift {A} (r : result A) : state_blind (lift r).
Proof. intros w w'. reflexivity. Qed.

Lemma state_blind_call {A} ev (op : lib_state -> result A * lib_state) :
  (forall s s', fst (op s) = fst (op s')) -> state_blind (call ev op).
Proof. intros H w w'. rewrite !call_fst. apply H. Qed.

Lemma state_blind_bind {A B} (c : M A) (k : A -> M B) :
  state_blind c -> (forall a, state_blind (k a)) -> state_blind (bind c k).
Proof.
  intros Hc Hk w w'. unfold bind. specialize (Hc w w').
  destruct (c w) as [[e|a] w1], (c w') as [[e'|a'] w1']; simpl in Hc;
    try discriminate; inversion Hc; subst; [reflexivity | apply Hk].
Qed.

Lemma adapter_state_blind c ts m :
  Deterministic L -> state_blind (adapter c ts m).
Proof.
  intros HD. destruct m; unfold adapter, run_ets_model, run_arima_model,
    run_xgboost_model, run_lstm_model.
  - apply state_blind_bind; [|intros model];
      apply state_blind_call; intros; [apply det_ets_fit | apply det_ets_forecast].
  - apply state_blind_bind; [|intros model].
    + destruct (cfg_use_seasonality c); apply state_blind_call; intros;
        [apply det_sarimax_fit | apply det_arima_fit].
    + apply state_blind_call; intros; apply det_arima_forecast.
  - apply state_blind_bind; [|intros model];
      apply state_blind_call; intros; [apply det_xgb_fit | apply det_xgb_predict].
  - apply state_blind_bind; [apply state_blind_lift | intros X3].
    apply state_blind_bind; [|intros model].
    + apply state_blind_call; intros; apply det_keras_fit.
    + apply state_blind_bind; [|intros out; apply state_blind_ret].
      apply state_blind_call; intros; apply det_keras_predict.
Qed.

Lemma recompute_forecasts_inr c ts w forecasts w' :
  recompute_forecasts c ts w = (inr forecasts, w') ->
  forall m, exists wm v,
    fst (adapter c ts m wm) = inr v
    /\ dict_get forecasts (method_name m ++ " Forecast") = Some v.
Proof.
  intros H. unfold recompute_forecasts in H.
  apply bind_inr in H as (v1 & w1 & H1 & H).
  apply bind_inr in H as (v2 & w2 & H2 & H).
  apply bind_inr in H as (v3 & w3 & H3 & H).
  apply bind_inr in H as (v4 & w4 & H4 & H).
  inversion H; subst. intros m.
  destruct m;
    [exists w, v1; rewrite H1 | exists w1, v2; rewrite H2
    | exists w2, v3; rewrite H3 | exists w3, v4; rewrite H4];
    split; reflexivity.
Qed.

Lemma visualization_inr c ts w forecasts w' :
  visualization c ts w = (inr forecasts, w') ->
  exists w1, recompute_forecasts c ts w = (inr forecasts, w1).
Proof.
  intros H. unfold visualization in H.
  apply bind_inr in H as (fig & w0 & Hfig & H).
  rewrite ax_plot_actual in Hfig. inversion Hfig; subst.
  apply bind_inr in H as (fs & w1 & Hfs & H).
  apply bind_inr in H as (fig' & w2 & _ & H).
  apply bind_inr in H as (u & w3 & _ & H).
  inversion H; subst. eauto.
Qed.

(** C10 (as amended). Each adapter is called twice per run with the same
    arguments, once for the scores and once for the plot.  When the
    libraries are deterministic (their answers do not depend on their
    internal state: no unseeded random initialisation), the two calls
    return the same values: every plotted forecast is the forecast that
    was scored. *)
Theorem scored_forecast_is_plotted_forecast
    c ts w futures results w1 forecasts w2 :
  Deterministic L ->
  run_models_in_parallel c ts w = (inr (futures, results), w1) ->
  visualization c ts w1 = (inr forecasts, w2) ->
  forall m, exists v,
    dict_get futures (method_name m) = Some (inr v)
    /\ dict_get forecasts (method_name m ++ " Forecast") = Some v.
Proof.
  intros HD Hpar Hvis m.
  destruct (run_models_in_parallel_run c ts w)
    as (futures' & results' & w1' & Hpar' & _ & _ & _ & _ & Hfut & _).
  rewrite Hpar in Hpar'. inversion Hpar'; subst futures' results' w1'.
  destruct (visualization_inr _ _ _ _ _ Hvis) as [w3 Hre].
  destruct (recompute_forecasts_inr _ _ _ _ _ Hre m) as (wm & v & Hv & Hget).
  destruct (Hfut m) as [wm' Hget'].
  exists v. split; [|exact Hget].
  rewrite Hget'. f_equal.
  rewrite (adapter_state_blind c ts m HD wm' wm). exact Hv.
Qed.

(** C2 (as amended). The two lag-based adapters fit on rows and labels
    built from [series[:-12]] alone; the exponential-smoothing and the
    autoregressive adapters fit on the whole series, its last 12
    observations included.  Every entry of [results] is
    [calculate_metrics] of [series[-12:]] and the forecast of that
    method. *)
Theorem fit_inputs_and_scoring c ts w :
  let history := slice_drop_last 12 ts in
  fit_events (trace (snd (adapter c ts ETS w)))
    = fit_events (trace w) ++ [FitSeries "ExponentialSmoothing" ts]
  /\ fit_events (trace (snd (adapter c ts ARIMA w)))
    = fit_events (trace w)
      ++ [FitSeries (if cfg_use_seasonality c then "SARIMAX" else "ARIMA") ts]
  /\ fit_events (trace (snd (adapter c ts XGBoost w)))
    = fit_events (trace w)
      ++ [FitFrame "XGBRegressor"
            (lag_matrix history (cfg_lags c))
            (slice_from (cfg_lags c) history)]
  /\ ((1 <= cfg_lags c)%nat ->
      fit_events (trace (snd (adapter c ts LSTM_ w)))
      = fit_events (trace w)
        ++ [FitTensor "Sequential"
              (map (map (fun x => [x])) (lag_matrix history (cfg_lags c)))
              (slice_from (cfg_lags c) history)])
  /\ (forall futures results w',
        run_models_in_parallel c ts w = (inr (futures, results), w') ->
        forall name scores,
          dict_get results name = Some scores ->
          exists forecast,
            dict_get futures name = Some (inr forecast)
            /\ calculate_metrics (slice_last 12 ts) forecast = Ok scores).
Proof.
  cbv zeta.
  split; [apply fit_events_ETS|].
  split; [apply fit_events_ARIMA|].
  split; [apply fit_events_XGBoost|].
  split; [apply fit_events_LSTM|].
  intros futures results w' Hpar name scores Hget.
  destruct (run_models_in_parallel_run c ts w)
    as (futures' & results' & w1' & Hpar' & _ & _ & _ & Hnd & _ & Hout & Hin).
  rewrite Hpar in Hpar'. inversion Hpar'; subst futures' results' w1'.
  destruct (in_dec string_dec name (map fst futures)) as [Hname|Hname].
  - apply in_map_iff in Hname as ([name' fut] & Hfst & Hfut).
    simpl in Hfst. subst name'.
    specialize (Hin name fut Hfut).
    unfold future_scores, rbind in Hin.
    destruct fut as [e|forecast].
    + destruct Hin as [Hnone _]. congruence.
    + exists forecast. split; [now apply dict_get_NoDup|].
      destruct (calculate_metrics (slice_last 12 ts) forecast) as [e|s].
      * destruct Hin as [Hnone _]. congruence.
      * unfold Ok. congruence.
  - rewrite (Hout name Hname) in Hget. discriminate.
Qed.

End OrchestratorFacts.

(** ** Claims about the adapters *)

Section AdapterClaims.

Context {L : Libraries}.

(** C5. Every successful call of an adapter, on a series and a
    configuration meeting the adapter's precondition, returns exactly 12
    values (the libraries returning as many values as they document). *)
Theorem adapter_returns_12_values c ts m w v w' :
  LibrariesContract L ->
  adapter_precondition c ts m = true ->
  adapter c ts m w = (inr v, w') ->
  length v = 12%nat.
Proof.
  intros HL Hpre Hrun. destruct m.
  - eapply adapter_length_ETS; eassumption.
  - eapply adapter_length_ARIMA; eassumption.
  - apply andb_prop in Hpre as [H1 H2].
    apply Nat.leb_le in H1. apply Nat.ltb_lt in H2.
    rewrite (adapter_length_XGBoost c ts w v w' HL Hrun).
    rewrite lag_matrix_length by assumption. lia.
  - apply andb_prop in Hpre as [H1 H2].
    apply Nat.leb_le in H1. apply Nat.ltb_lt in H2.
    rewrite (adapter_length_LSTM c ts w v w' HL Hrun).
    rewrite lag_matrix_length by assumption. lia.
Qed.

(** C4 (as amended). On a series of at most [lags + 12] observations a
    lag-based adapter checks nothing itself: it calls the library's fit
    with an empty training frame (no row, no label) and, if that call
    returns, predicts on all the [len(series) - lags] rows there are, at
    most 12 and fewer when the series is shorter than [lags + 12].  Its
    outcome is what those two library calls give: their exception if one
    raises, else the possibly shorter forecast. *)
Theorem lag_adapters_on_short_series c ts :
  (1 <= cfg_lags c)%nat ->
  (length ts <= cfg_lags c + 12)%nat ->
  let X := lag_matrix ts (cfg_lags c) in
  adapter c ts XGBoost =
    (model <- call (FitFrame "XGBRegressor" [] [])
                   (XGBRegressor_fit (cfg_learning_rate c) (cfg_n_estimators c)
                      (cfg_max_depth c) [] []) ;;
     call (PredictFrame "XGBRegressor" X) (XGBRegressor_predict model X))%run
  /\ adapter c ts LSTM_ =
    (model <- call (FitTensor "Sequential" [] [])
                   (Sequential_fit
                      (lstm_stack (cfg_lstm_units c) (cfg_lstm_layers c)
                         (cfg_dropout c))
                      "adam" "mse" [] [] (cfg_epochs c) (cfg_batch_size c)) ;;
     out <- call (PredictTensor "Sequential" (map (map (fun x => [x])) X))
                 (Sequential_predict model (map (map (fun x => [x])) X)) ;;
     ret (concat out))%run
  /\ length X = (length ts - cfg_lags c)%nat
  /\ (length X <= 12)%nat.
Proof.
  intros Hlags Hshort. cbv zeta.
  split; [apply run_xgboost_model_short; assumption|].
  split; [apply run_lstm_model_short; assumption|].
  rewrite lag_matrix_length by assumption. lia.
Qed.

End AdapterClaims.

(** ** The stand-in libraries *)

Lemma standin_contract strict random :
  LibrariesContract (standin_libs strict random).
Proof.
  constructor; simpl.
  - intros m steps s v s' H. inversion H. apply repeat_length.
  - intros m steps s v s' H. inversion H. apply repeat_length.
  - intros m X s v s' H. inversion H. apply length_map.
  - intros m X s v s' H. inversion H. split; [apply length_map|].
    apply Forall_forall. intros row Hrow.
    apply in_map_iff in Hrow as (x & <- & _). reflexivity.
Qed.

Lemma standin_deterministic strict :
  Deterministic (standin_libs strict false).
Proof.
  constructor; simpl; intros; try reflexivity.
  - destruct se; [|reflexivity].
    match goal with |- context [if ?b then _ else _] => destruct b end;
      reflexivity.
  - destruct (strict && is_empty X); reflexivity.
  - destruct (strict && is_empty X); reflexivity.
Qed.

(** ** Runs on the stand-in libraries *)

Lemma adapter_returns_12_values_witness :
  exists v w',
    adapter (L := standin_libs true false) default_params (ramp 20) XGBoost
      (standin_start true false) = (inr v, w')
    /\ length v = 12%nat.
Proof.
  do 2 eexists. split; [reflexivity|].
  eapply (adapter_returns_12_values (L := standin_libs true false)
            default_params (ramp 20) XGBoost (standin_start true false)).
  - apply standin_contract.
  - reflexivity.
  - reflexivity.
Defined.

Lemma lag_adapters_on_short_series_witness :
  adapter (L := standin_libs false false) default_params (ramp 10) XGBoost
    (standin_start false false)
  = (inr [INR 5; INR 6; INR 7; INR 8; INR 9],
     World (L := standin_libs false false) 0%nat
       [FitFrame "XGBRegressor" [] [];
        PredictFrame "XGBRegressor" (lag_matrix (ramp 10) 5)]).
Proof.
  rewrite (proj1 (lag_adapters_on_short_series (L := standin_libs false false)
                    default_params (ramp 10)
                    ltac:(simpl; lia) ltac:(simpl; lia))).
  reflexivity.
Defined.

(** C4 (as stated) fails: on 10 observations with 5 lags, a library that
    accepts an empty training frame lets the adapter return 5 values, and
    one that refuses it makes the adapter fail with the library's own
    exception; in neither case is the failure an [InsufficientData]. *)
Lemma lag_adapter_short_series_no_InsufficientData :
  fst (adapter (L := standin_libs false false) default_params (ramp 10) XGBoost
         (standin_start false false))
  = inr [INR 5; INR 6; INR 7; INR 8; INR 9]
  /\ fst (adapter (L := standin_libs true false) default_params (ramp 10) XGBoost
            (standin_start true false))
     = inl (Exn "XGBoostError" "Empty training data.")
  /\ fst (adapter (L := standin_libs false false) default_params (ramp 10) LSTM_
            (standin_start false false))
     = inr [INR 5 + 0; INR 6 + 0; INR 7 + 0; INR 8 + 0; INR 9 + 0]
  /\ fst (adapter (L := standin_libs true false) default_params (ramp 10) LSTM_
            (standin_start true false))
     = inl (ValueError "Training data contains 0 samples.")
  /\ raises "InsufficientData"
       (fst (adapter (L := standin_libs false false) default_params (ramp 10)
               XGBoost (standin_start false false))) = false
  /\ raises "InsufficientData"
       (fst (adapter (L := standin_libs true false) default_params (ramp 10)
               XGBoost (standin_start true false))) = false.
Proof. repeat split. Qed.

(** C2 (as stated) fails for the exponential-smoothing adapter: on 24
    observations its fit receives all 24, not the first 12, and two series
    with the same first 12 observations get different forecasts. *)
Lemma ets_fit_sees_holdout :
  fit_events
    (trace (snd (adapter (L := standin_libs true false) default_params (ramp 24)
                   ETS (standin_start true false))))
  = [FitSeries "ExponentialSmoothing" (ramp 24)]
  /\ length (ramp 24) = 24%nat
  /\ length (slice_drop_last 12 (ramp 24)) = 12%nat
  /\ slice_drop_last 12 (ramp 12 ++ repeat 0 12) = slice_drop_last 12 (ramp 24)
  /\ fst (adapter (L := standin_libs true false) default_params (ramp 24)
            ETS (standin_start true false))
     = inr (repeat (INR 24) 12)
  /\ fst (adapter (L := standin_libs true false) default_params
            (ramp 12 ++ repeat 0 12) ETS (standin_start true false))
     = inr (repeat 0 12)
  /\ repeat (INR 24) 12 <> repeat 0 12.
Proof.
  repeat split.
  intros H. inversion H as [H24].
  apply (not_0_INR 24); [lia | exact H24].
Qed.

Lemma run_forecast_aborts_on_failing_adapter_witness :
  fst (run_forecast (L := standin_libs true false) default_params (ramp 20)
         (standin_start true false))
  = inl too_few_cycles
  /\ In (StError "ETS failed: Cannot compute initial seasonals using heuristic method with less than two full seasonal cycles in the data.")
        (trace (snd (run_forecast (L := standin_libs true false) default_params
                       (ramp 20) (standin_start true false))))
  /\ filter is_dataframe
       (trace (snd (run_forecast (L := standin_libs true false) default_params
                      (ramp 20) (standin_start true false))))
     = [].
Proof.
  apply (run_forecast_aborts_on_failing_adapter (L := standin_libs true false)
           default_params (ramp 20) ETS too_few_cycles).
  - intros w. reflexivity.
  - intros m w Hm. destruct m; [congruence | reflexivity ..].
Defined.

(** C3 (as stated) fails: on 20 observations and the default sidebar the
    exponential-smoothing task raises, and [results] has no entry under
    "ETS", only the scores of the three other methods. *)
Lemma results_lack_failed_method :
  exists futures results w',
    run_models_in_parallel (L := standin_libs true false) default_params (ramp 20)
      (standin_start true false) = (inr (futures, results), w')
    /\ dict_get futures "ETS" = Some (inl too_few_cycles)
    /\ dict_get results "ETS" = None
    /\ map fst results = ["ARIMA"; "XGBoost"; "LSTM"]%string.
Proof.
  do 3 eexists. split; [reflexivity|]. repeat split.
Qed.

Lemma scored_forecast_is_plotted_forecast_witness :
  exists futures results w1 forecasts w2,
    run_models_in_parallel (L := standin_libs true false) default_params (ramp 30)
      (standin_start true false) = (inr (futures, results), w1)
    /\ visualization default_params (ramp 30) w1 = (inr forecasts, w2)
    /\ exists v,
         dict_get futures "LSTM" = Some (inr v)
         /\ dict_get forecasts "LSTM Forecast" = Some v.
Proof.
  destruct (run_models_in_parallel_run (L := standin_libs true false)
              default_params (ramp 30) (standin_start true false))
    as (futures & results & [s tr] & Hrun & _ & Hlibs & _).
  cbn in Hlibs. subst s.
  exists futures, results, (World (L := standin_libs true false) 0%nat tr).
  do 2 eexists.
  split; [exact Hrun|]. split; [reflexivity|].
  eapply (scored_forecast_is_plotted_forecast (L := standin_libs true false)
            default_params (ramp 30) _ futures results _ _ _
            (standin_deterministic true) Hrun eq_refl LSTM_).
Defined.

(** C10 (as stated) fails when a library draws from a random generator
    it is not given a seed for: fitted twice on the same 30 observations,
    the stand-in network returns one forecast for the scores and another
    for the plot. *)
Lemma lstm_plotted_differs_from_scored :
  exists futures results w1 forecasts w2,
    run_models_in_parallel (L := standin_libs true true) default_params (ramp 30)
      (standin_start true true) = (inr (futures, results), w1)
    /\ visualization default_params (ramp 30) w1 = (inr forecasts, w2)
    /\ dict_get futures "LSTM"
       = Some (inr (map (fun x => INR x + INR 0) (seq 18 12)))
    /\ dict_get forecasts "LSTM Forecast"
       = Some (map (fun x => INR x + INR 1) (seq 18 12))
    /\ map (fun x => INR x + INR 0) (seq 18 12)
       <> map (fun x => INR x + INR 1) (seq 18 12).
Proof.
  destruct (run_models_in_parallel_run (L := standin_libs true true)
              default_params (ramp 30) (standin_start true true))
    as (futures & results & [s tr] & Hrun & Hfut & Hlibs & _).
  cbn in Hfut. inversion Hfut; subst futures; clear Hfut.
  cbn in Hlibs. subst s.
  do 2 eexists. exists (World (L := standin_libs true true) 1%nat tr).
  do 2 eexists.
  split; [exact Hrun|]. split; [reflexivity|].
  repeat split.
  intros H. inversion H as [H8]. simpl in H8. lra.
Qed.

(** * Further properties *)

(** ** More about the metrics *)









Lemma calculate_metrics_ok_shape a p m :
  calculate_metrics a p = Ok m -> length a = length p /\ a <> [].
Proof.
  intros H.
  assert (Hbad : length a <> length p \/ a = [] \/ p = [] -> False).
  { intros Hill.
    destruct (check_reg_targets_raises (np_where_zero a) (np_where_zero p))
      as [msg Hmsg].
    - rewrite !np_where_zero_length.
      destruct Hill as [Hill|[Hill|Hill]]; subst; auto.
    - unfold calculate_metrics, mean_squared_error in H.
      rewrite Hmsg in H. discriminate. }
  split.
  - destruct (Nat.eq_dec (length a) (length p)); [assumption | tauto].
  - intros ->. tauto.
Qed.

(** ** More about the metrics on binary64 *)

Section Binary64MoreFacts.

Import PrimFloat SpecFloat FloatOps FloatAxioms Binary64.
Local Open Scope float_scope.
#[local] Set Warnings "-inexact-float".

Lemma zero_is_finite v : (v =? 0) = true -> is_finite v = true.
Proof.
  intros E. unfold is_finite, is_nan, is_infinity.
  rewrite eqb_spec in E. rewrite !eqb_spec, abs_spec.
  replace (Prim2SF 0) with (S754_zero false) in E by reflexivity.
  replace (Prim2SF infinity) with (S754_infinity false) by reflexivity.
  destruct (Prim2SF v) as [[]|[]| |[] mv ev]; try discriminate E; reflexivity.
Qed.

Lemma np_where_zero64_zeros y :
  forallb (fun v => v =? 0) y = true ->
  np_where_zero y = repeat 1e-6 (length y).
Proof.
  induction y as [|v y IH]; [reflexivity|].
  cbn [forallb]. intros H. apply andb_prop in H as [Hv Hy].
  cbn [np_where_zero map length repeat]. rewrite Hv. f_equal. now apply IH.
Qed.

Lemma map2_repeat {A B C} (f : A -> B -> C) x y n :
  map2 f (repeat x n) (repeat y n) = repeat (f x y) n.
Proof. induction n as [|n IH]; [reflexivity|]. cbn. now rewrite IH. Qed.

(** The mean of zeros is zero, not 0/0. *)
Lemma np_mean64_zeros n :
  (0 < Z.of_nat n < 2 ^ 53)%Z -> np_mean (repeat 0 n) = 0.
Proof.
  intros Hn. unfold np_mean. rewrite repeat_length.
  assert (Hs : np_sum (repeat 0 n) = 0).
  { apply np_sum_closed with (P := fun x => x = 0).
    - intros x y -> ->. reflexivity.
    - reflexivity.
    - apply Forall_forall. intros x Hx. now apply repeat_spec in Hx. }
  rewrite Hs. destruct (of_nat_positive n Hn) as (m & e & Hc).
  apply Prim2SF_inj. rewrite div_spec, Hc. reflexivity.
Qed.

(** X18. The zero guard at any length: when every element of both
    sequences is a zero (of either sign), [calculate_metrics] returns
    RMSE = MAE = SMAPE = 0; no 0/0 is ever formed. *)
Theorem calculate_metrics_zeros a p :
  length a = length p -> a <> [] -> (Z.of_nat (length a) < 2 ^ 53)%Z ->
  forallb (fun v => v =? 0) a = true ->
  forallb (fun v => v =? 0) p = true ->
  Binary64.calculate_metrics a p = Ok {| RMSE := 0; MAE := 0; SMAPE := 0 |}.
Proof.
  intros Hlen Hne Hsize Ha Hp.
  assert (Hfin : forall y, forallb (fun v => v =? 0) y = true ->
                           forallb is_finite y = true).
  { intros y Hy. apply forallb_forall. intros v Hv.
    apply zero_is_finite. revert v Hv. now apply forallb_forall. }
  rewrite (calculate_metrics64_value a p Hlen Hne (Hfin a Ha) (Hfin p Hp)).
  rewrite (np_where_zero64_zeros a Ha), (np_where_zero64_zeros p Hp), <- Hlen.
  rewrite !map2_repeat.
  assert (Hn : (0 < Z.of_nat (length a) < 2 ^ 53)%Z).
  { destruct a; [congruence | cbn [length] in *; lia]. }
  replace ((1e-6 - 1e-6) * (1e-6 - 1e-6)) with 0 by reflexivity.
  replace (abs (1e-6 - 1e-6)) with 0 by reflexivity.
  replace (smape_term 1e-6 1e-6) with 0 by reflexivity.
  rewrite (np_mean64_zeros _ Hn).
  reflexivity.
Qed.

Lemma calculate_metrics_zeros_witness :
  Binary64.calculate_metrics [0; -0; 0; 0] [-0; 0; 0; -0] =
    Ok {| RMSE := 0; MAE := 0; SMAPE := 0 |}.
Proof.
  apply (calculate_metrics_zeros [0; -0; 0; 0] [-0; 0; 0; -0]);
    (reflexivity || discriminate).
Defined.

(** X19. [calculate_metrics] returns on exactly the equal-length, non-empty
    pairs of sequences without NaN or infinity; on every other pair it
    raises a [ValueError]. *)
Theorem calculate_metrics_returns_or_raises_ValueError a p :
  if (length a =? length p)%nat && negb (length a =? 0)%nat
     && forallb is_finite a && forallb is_finite p
  then exists m, Binary64.calculate_metrics a p = Ok m
  else raises "ValueError" (Binary64.calculate_metrics a p) = true.
Proof.
  destruct (length a =? length p)%nat eqn:Hlen; cbn [andb].
  - apply Nat.eqb_eq in Hlen.
    destruct (length a =? 0)%nat eqn:Hne; cbn [negb andb].
    + apply Nat.eqb_eq in Hne.
      destruct a; [|discriminate]. destruct p; [|discriminate]. reflexivity.
    + apply Nat.eqb_neq in Hne.
      assert (Hne' : a <> []) by (intros ->; now apply Hne).
      destruct (forallb is_finite a) eqn:Ha; cbn [andb];
        [destruct (forallb is_finite p) eqn:Hp|].
      * rewrite (calculate_metrics64_value a p Hlen Hne' Ha Hp). eauto.
      * apply calculate_metrics64_not_finite; [assumption|]. now rewrite Ha, Hp.
      * apply calculate_metrics64_not_finite; [assumption|]. now rewrite Ha.
  - unfold calculate_metrics, mean_squared_error, check_reg_targets.
    rewrite !np_where_zero64_length, Hlen. reflexivity.
Qed.

End Binary64MoreFacts.

(** ** More about the lag frames *)

Lemma lag_matrix_cell ts lags k i :
  (1 <= lags)%nat -> (k < length ts - lags)%nat -> (i < lags)%nat ->
  nth i (nth k (lag_matrix ts lags) []) NaN
  = Num (nth (lags + k - 1 - i) ts 0).
Proof.
  intros Hlags Hk Hi.
  rewrite lag_matrix_rows by assumption.
  rewrite (nth_indep _ [] (lag_row ts lags 0))
    by (rewrite length_map, length_seq; assumption).
  rewrite (map_nth (lag_row ts lags)), seq_nth by assumption.
  unfold lag_row.
  rewrite (nth_indep _ NaN ((fun j => Num (nth (lags + k - j) ts 0)) 0%nat))
    by (rewrite length_map, length_seq; assumption).
  rewrite (map_nth (fun j => Num (nth (lags + k - j) ts 0))), seq_nth by assumption.
  do 2 f_equal. lia.
Qed.

Lemma lag_matrix_row_length ts lags k :
  (1 <= lags)%nat -> (k < length ts - lags)%nat ->
  length (nth k (lag_matrix ts lags) []) = lags.
Proof.
  intros Hlags Hk.
  rewrite lag_matrix_rows by assumption.
  rewrite (nth_indep _ [] (lag_row ts lags 0))
    by (rewrite length_map, length_seq; assumption).
  rewrite (map_nth (lag_row ts lags)).
  unfold lag_row. now rewrite length_map, length_seq.
Qed.

(** X6. The supervised frame is aligned: with [lags >= 1], [X] and [y]
    both have [len(series) - lags] rows; row [k] of [X] has [lags] cells,
    none of them NaN, which are the [lags] observations just before
    position [lags + k], the nearest first, and [y[k]] is the observation
    at position [lags + k]. *)
Theorem lag_frame_aligned ts lags :
  (1 <= lags)%nat ->
  length (lag_matrix ts lags) = (length ts - lags)%nat
  /\ length (slice_from lags ts) = (length ts - lags)%nat
  /\ forall k, (k < length ts - lags)%nat ->
       nth k (slice_from lags ts) 0 = nth (lags + k) ts 0
       /\ length (nth k (lag_matrix ts lags) []) = lags
       /\ forall i, (i < lags)%nat ->
            nth i (nth k (lag_matrix ts lags) []) NaN
            = Num (nth (lags + k - 1 - i) ts 0).
Proof.
  intros Hlags. split; [now apply lag_matrix_length|].
  split; [unfold slice_from; apply length_skipn|].
  intros k Hk. split; [unfold slice_from; apply nth_skipn|].
  split; [now apply lag_matrix_row_length|].
  intros i Hi. now apply lag_matrix_cell.
Qed.

Lemma lag_frame_aligned_witness :
  nth 0 (nth 2 (lag_matrix (ramp 10) 3) []) NaN = Num (nth 4 (ramp 10) 0)
  /\ nth 2 (slice_from 3 (ramp 10)) 0 = nth 5 (ramp 10) 0.
Proof.
  destruct (lag_frame_aligned (ramp 10) 3 ltac:(lia)) as (_ & _ & H).
  destruct (H 2%nat ltac:(simpl; lia)) as (Hy & _ & Hx).
  split; [exact (Hx 0%nat ltac:(lia)) | exact Hy].
Defined.

(** X7. The rows the lag-based adapters predict on, [X[-12:]], are the
    rows of the last 12 positions of the series: with [lags >= 1] and at
    least [lags + 12] observations, row [k] holds the true observations
    just before position [len - 12 + k], and the value it is scored
    against, [series[-12:][k]], is the observation at that position.  So
    each prediction reads the observation that precedes the one it is
    compared with. *)
Theorem prediction_rows_read_preceding_observations ts lags :
  (1 <= lags)%nat -> (lags + 12 <= length ts)%nat ->
  length (slice_last 12 (lag_matrix ts lags)) = 12%nat
  /\ forall k, (k < 12)%nat ->
       nth k (slice_last 12 ts) 0 = nth (length ts - 12 + k) ts 0
       /\ forall i, (i < lags)%nat ->
            nth i (nth k (slice_last 12 (lag_matrix ts lags)) []) NaN
            = Num (nth (length ts - 12 + k - 1 - i) ts 0).
Proof.
  intros Hlags Hlen. split.
  - rewrite predict_rows_length by assumption. lia.
  - intros k Hk. split.
    + unfold slice_last. apply nth_skipn.
    + intros i Hi. unfold slice_last.
      rewrite nth_skipn, lag_matrix_length by assumption.
      rewrite lag_matrix_cell by lia.
      do 2 f_equal. lia.
Qed.

Lemma prediction_rows_read_preceding_observations_witness :
  nth 0 (nth 1 (slice_last 12 (lag_matrix (ramp 20) 5)) []) NaN
  = Num (nth 8 (ramp 20) 0)
  /\ nth 1 (slice_last 12 (ramp 20)) 0 = nth 9 (ramp 20) 0.
Proof.
  destruct (prediction_rows_read_preceding_observations (ramp 20) 5
              ltac:(lia) ltac:(simpl; lia)) as (_ & H).
  destruct (H 1%nat ltac:(lia)) as (Hy & Hx).
  split; [exact (Hx 0%nat ltac:(lia)) | exact Hy].
Defined.

(** ** More about the adapters and the scoring loop *)

Section MoreRunFacts.

Context {L : Libraries}.

Ltac destruct_calls :=
  repeat match goal with
  | |- context [match ?op (libs ?w) with pair _ _ => _ end] =>
      destruct (op (libs w)) as [[?|?] ?]; cbn [fst snd]
  | |- context [match ?op ?s with pair _ _ => _ end] =>
      destruct (op s) as [[?|?] ?]; cbn [fst snd]
  end.

(** X8. A call of an adapter (with at least one lag) makes exactly one
    fitting call into its library and then at most one forecasting or
    predicting call: none when the fit raised, in which case the adapter
    raises too; it never predicts with a model that was not fitted. *)
Theorem adapter_fits_then_predicts c ts m w :
  (1 <= cfg_lags c)%nat ->
  exists fit_ev pred_ev,
    is_fit fit_ev = true /\ is_predict pred_ev = true
    /\ ((succeeds (fst (adapter c ts m w)) = false
         /\ trace (snd (adapter c ts m w)) = trace w ++ [fit_ev])
        \/ trace (snd (adapter c ts m w)) = trace w ++ [fit_ev; pred_ev]).
Proof.
  intros Hlags.
  destruct m; unfold adapter, run_ets_model, run_arima_model,
    run_xgboost_model, run_lstm_model.
  - exists (FitSeries "ExponentialSmoothing" ts), (Forecast "ExponentialSmoothing" 12).
    split; [reflexivity|]. split; [reflexivity|].
    unfold bind, call. destruct_calls; cbn [trace]; rewrite <- ?app_assoc; auto.
  - exists (FitSeries (if cfg_use_seasonality c then "SARIMAX" else "ARIMA") ts),
      (Forecast "ARIMA" 12).
    split; [now destruct (cfg_use_seasonality c)|]. split; [reflexivity|].
    unfold bind, call.
    destruct (cfg_use_seasonality c); cbv beta iota; destruct_calls; cbn [trace];
      rewrite <- ?app_assoc; auto.
  - exists (FitFrame "XGBRegressor"
              (slice_drop_last 12 (lag_matrix ts (cfg_lags c)))
              (slice_drop_last 12 (slice_from (cfg_lags c) ts))),
      (PredictFrame "XGBRegressor" (slice_last 12 (lag_matrix ts (cfg_lags c)))).
    split; [reflexivity|]. split; [reflexivity|].
    unfold bind, call. destruct_calls; cbn [trace]; rewrite <- ?app_assoc; auto.
  - rewrite reshape3_ok by assumption.
    set (X := map (map (fun x => [x])) (lag_matrix ts (cfg_lags c))).
    exists (FitTensor "Sequential" (slice_drop_last 12 X)
              (slice_drop_last 12 (slice_from (cfg_lags c) ts))),
      (PredictTensor "Sequential" (slice_last 12 X)).
    split; [reflexivity|]. split; [reflexivity|].
    unfold bind, lift, call, ret, Ok. cbv beta iota.
    destruct_calls; cbn [trace]; rewrite <- ?app_assoc; auto.
Qed.

End MoreRunFacts.

Section ScoringLoopFacts.

Context {L : Libraries}.

Lemma dict_set_fresh {V} (d : list (string * V)) k v :
  ~ In k (map fst d) -> dict_set d k v = d ++ [(k, v)].
Proof.
  induction d as [|[k0 v0] d IH]; simpl; intros H; [reflexivity|].
  destruct (String.eqb_spec k0 k) as [->|_]; [tauto|].
  rewrite IH by tauto. reflexivity.
Qed.

(** What the loop of lines 187-192 returns and what it leaves in the
    world, written out. *)
Lemma collect_results_exact ts total futures :
  NoDup (map fst futures) ->
  forall i results w,
    (forall name, In name (map fst futures) -> ~ In name (map fst results)) ->
    collect_results ts total i futures results w
    = (inr (results ++ scored_rows ts futures),
       World (libs w) (trace w ++ loop_output ts total i futures)).
Proof.
  induction futures as [|[model fut] rest IH]; intros Hnd i results w Hfresh.
  - cbn. rewrite !app_nil_r. now destruct w.
  - inversion Hnd as [|? ? Hnotin Hnd']; subst.
    cbn [collect_results loop_output].
    unfold scored_rows. cbn [flat_map fst snd]. fold (scored_rows ts rest).
    unfold bind, try_except, future_result, lift, ret, emit.
    unfold future_scores, rbind.
    destruct fut as [e|forecast]; cbv beta iota;
      [|destruct (calculate_metrics (slice_last 12 ts) forecast) as [e|scores];
        cbv beta iota].
    + rewrite (IH Hnd' (S i) results).
      * cbn [libs trace app]. rewrite <- !app_assoc. reflexivity.
      * intros name Hname. apply Hfresh. right. exact Hname.
    + rewrite (IH Hnd' (S i) results).
      * cbn [libs trace app]. rewrite <- !app_assoc. reflexivity.
      * intros name Hname. apply Hfresh. right. exact Hname.
    + rewrite dict_set_fresh by (apply Hfresh; left; reflexivity).
      rewrite (IH Hnd' (S i) (results ++ [(model, scores)])).
      * cbn [libs trace app]. rewrite <- !app_assoc. reflexivity.
      * intros name Hname. rewrite map_app, in_app_iff. cbn [map fst In].
        intros [Hin|[Heq|[]]].
        -- exact (Hfresh name (or_intror Hname) Hin).
        -- subst name. exact (Hnotin Hname).
Qed.

Lemma appends_weaken (P P' : event -> bool) w w' :
  (forall ev, P ev = true -> P' ev = true) ->
  appends P w w' -> appends P' w w'.
Proof.
  intros HPP (evs & Htr & Hall). exists evs. split; [exact Htr|].
  rewrite forallb_forall in *. auto.
Qed.

Lemma adapter_calls_only c ts m : quiet is_call (adapter c ts m).
Proof.
  destruct m; unfold adapter, run_ets_model, run_arima_model,
    run_xgboost_model, run_lstm_model;
    repeat first
      [ apply quiet_bind; [|intros ?]
      | apply quiet_call; reflexivity
      | apply quiet_ret
      | apply quiet_lift ].
  destruct (cfg_use_seasonality c); apply quiet_call; reflexivity.
Qed.

Lemma submit_all_calls_only c ts : quiet is_call (submit_all c ts).
Proof.
  unfold submit_all.
  repeat (apply quiet_bind;
          [apply quiet_executor_submit, adapter_calls_only | intros ?]).
  apply quiet_ret.
Qed.

Lemma scoring_stage_results_and_output_aux c ts w :
  exists futures w1,
    submit_all c ts w = (inr futures, w1)
    /\ map fst futures = map method_name [ETS; ARIMA; XGBoost; LSTM_]
    /\ run_models_in_parallel c ts w
       = (inr (futures, scored_rows ts futures),
          World (libs w1) (trace w1 ++ loop_output ts 4 1 futures)).
Proof.
  pose proof (submit_all_run c ts w) as Hs. cbv zeta in Hs.
  match type of Hs with
  | _ = (inr ?f, ?w1') => exists f, w1'; set (futures := f) in *;
                          set (w1 := w1') in *
  end.
  split; [exact Hs|]. split; [reflexivity|].
  unfold run_models_in_parallel. unfold bind at 1. rewrite Hs. cbv beta iota.
  unfold bind, ret.
  match goal with
  | |- context [collect_results ?a ?b ?i ?fs ?r ?w0] =>
      rewrite (collect_results_exact a b fs)
  end.
  - reflexivity.
  - subst futures. cbn [map fst].
    repeat constructor; cbn [In]; intuition discriminate.
  - intros name _ [].
Qed.

(** X9. The scoring stage never raises.  Its [results] are, in submission
    order, exactly the rows of the futures that could be scored, and what
    it shows on the page is, for each of the four methods in order, an
    error message if the method could not be scored, then the progress
    [i / 4]. *)
Theorem scoring_stage_results_and_output c ts w :
  exists futures w1,
    submit_all c ts w = (inr futures, w1)
    /\ map fst futures = map method_name [ETS; ARIMA; XGBoost; LSTM_]
    /\ run_models_in_parallel c ts w
       = (inr (futures, scored_rows ts futures),
          World (libs w1) (trace w1 ++ loop_output ts 4 1 futures)).
Proof.
  pose proof (submit_all_run c ts w) as Hs. cbv zeta in Hs.
  match type of Hs with
  | _ = (inr ?f, ?w1') => exists f, w1'; set (futures := f) in *;
                          set (w1 := w1') in *
  end.
  split; [exact Hs|]. split; [reflexivity|].
  unfold run_models_in_parallel. unfold bind at 1. rewrite Hs. cbv beta iota.
  unfold bind, ret.
  match goal with
  | |- context [collect_results ?a ?b ?i ?fs ?r ?w0] =>
      rewrite (collect_results_exact a b fs)
  end.
  - reflexivity.
  - subst futures. cbn [map fst].
    repeat constructor; cbn [In]; intuition discriminate.
  - intros name _ [].
Qed.

Lemma scored_rows_and_errors ts total i futures :
  (length (scored_rows ts futures)
   + length (filter is_error (loop_output ts total i futures)))%nat
  = length futures.
Proof.
  revert i. induction futures as [|[model fut] rest IH]; intros i;
    [reflexivity|].
  unfold scored_rows. cbn [flat_map loop_output fst snd].
  fold (scored_rows ts rest).
  rewrite filter_app, !length_app. cbn [filter is_error].
  specialize (IH (S i)).
  destruct (future_scores ts fut); cbn [filter is_error length]; lia.
Qed.

Lemma loop_output_progress ts total i futures :
  filter is_progress (loop_output ts total i futures)
  = map (fun j => StProgressFloat (INR j / INR total)) (seq i (length futures)).
Proof.
  revert i. induction futures as [|[model fut] rest IH]; intros i;
    [reflexivity|].
  cbn [loop_output length seq map]. rewrite filter_app.
  cbn [filter is_progress]. rewrite IH.
  destruct (future_scores ts fut); reflexivity.
Qed.

Lemma is_call_not_error ev : is_call ev = true -> is_error ev = false.
Proof. destruct ev; cbn; intros H; (reflexivity || discriminate). Qed.

Lemma is_call_not_progress ev : is_call ev = true -> is_progress ev = false.
Proof. destruct ev; cbn; intros H; (reflexivity || discriminate). Qed.

(** X10. Every method is accounted for exactly once by the scoring
    stage: the number of rows of [results] plus the number of error
    messages the stage shows is 4. *)
Theorem scoring_stage_accounts_for_four c ts w :
  exists futures results w',
    run_models_in_parallel c ts w = (inr (futures, results), w')
    /\ (length results + length (filter is_error (trace w')))%nat
       = (length (filter is_error (trace w)) + 4)%nat.
Proof.
  destruct (scoring_stage_results_and_output_aux c ts w)
    as (futures & w1 & Hs & Hnames & Hrun).
  exists futures, (scored_rows ts futures), (World (libs w1) (trace w1 ++ loop_output ts 4 1 futures)).
  split; [exact Hrun|]. cbn [trace].
  rewrite filter_app, length_app.
  pose proof (submit_all_calls_only c ts w) as Hq. rewrite Hs in Hq. cbn [snd] in Hq.
  rewrite (appends_filter is_call is_error w w1 is_call_not_error Hq).
  pose proof (scored_rows_and_errors ts 4 1 futures) as Hcount.
  apply (f_equal (@length string)) in Hnames. rewrite !length_map in Hnames.
  cbn [length] in Hnames. unfold future in *. lia.
Qed.

(** X11. The scoring stage reports progress 1/4, 2/4, 3/4, 4/4, in this
    order and nothing else, whether the methods fail or not. *)
Theorem scoring_stage_progress c ts w :
  filter is_progress (trace (snd (run_models_in_parallel c ts w)))
  = filter is_progress (trace w)
    ++ map (fun j => StProgressFloat (INR j / INR 4)) [1; 2; 3; 4]%nat.
Proof.
  destruct (scoring_stage_results_and_output_aux c ts w)
    as (futures & w1 & Hs & Hnames & Hrun).
  rewrite Hrun. cbn [snd trace]. rewrite filter_app.
  pose proof (submit_all_calls_only c ts w) as Hq. rewrite Hs in Hq. cbn [snd] in Hq.
  rewrite (appends_filter is_call is_progress w w1 is_call_not_progress Hq).
  rewrite loop_output_progress.
  apply (f_equal (@length string)) in Hnames. rewrite !length_map in Hnames.
  unfold future in *. rewrite Hnames. reflexivity.
Qed.

Lemma future_scores_succeeds ts fut :
  succeeds (future_scores ts fut) = true <->
  exists v, fut = inr v /\ length v = Nat.min 12 (length ts) /\ v <> [].
Proof.
  unfold future_scores, rbind. destruct fut as [e|v]; cbn [succeeds].
  - split; [discriminate | intros (v & Hv & _); discriminate].
  - split.
    + intros H.
      destruct (calculate_metrics (slice_last 12 ts) v) as [e|m] eqn:E;
        [discriminate|].
      destruct (calculate_metrics_ok_shape _ _ _ E) as [Hlen Hne].
      rewrite slice_last_length in Hlen.
      exists v. split; [reflexivity|]. split; [now symmetry|].
      intros ->. destruct (slice_last 12 ts); [congruence | discriminate].
    + intros (v' & Hv & Hlen & Hne). inversion Hv; subst v'.
      rewrite calculate_metrics_value; [reflexivity| |].
      * rewrite slice_last_length. now symmetry.
      * intros E. apply (f_equal (@length R)) in E.
        rewrite slice_last_length, <- Hlen in E.
        destruct v; [congruence | discriminate].
Qed.


Lemma plot_forecasts_ok ts forecasts : forall fig w,
  forallb has_12_values forecasts = true ->
  plot_forecasts ts forecasts fig w
  = (inr (fig ++ forecast_lines ts forecasts), w).
Proof.
  induction forecasts as [|[label f] rest IH]; intros fig w H.
  - cbn. now rewrite app_nil_r.
  - cbn [forallb] in H. apply andb_prop in H as [Hf Hrest].
    unfold has_12_values in Hf. cbn [snd] in Hf.
    cbn [plot_forecasts]. unfold bind, ax_plot.
    rewrite length_seq, Nat.eqb_sym, Hf. unfold ret.
    rewrite IH by assumption.
    unfold forecast_lines. cbn [map fst snd]. now rewrite <- app_assoc.
Qed.

Lemma plot_forecasts_world ts forecasts : forall fig w,
  snd (plot_forecasts ts forecasts fig w) = w.
Proof.
  induction forecasts as [|[label f] rest IH]; intros fig w; [reflexivity|].
  cbn [plot_forecasts]. unfold bind, ax_plot.
  destruct (length (seq (length ts) 12) =? length f)%nat; unfold ret, raise;
    [apply IH | reflexivity].
Qed.

Lemma plot_forecasts_raises ts forecasts : forall fig w,
  forallb has_12_values forecasts = false ->
  raises "ValueError" (fst (plot_forecasts ts forecasts fig w)) = true.
Proof.
  induction forecasts as [|[label f] rest IH]; intros fig w H;
    [discriminate|].
  cbn [forallb] in H. unfold has_12_values at 1 in H. cbn [snd] in H.
  cbn [plot_forecasts]. unfold bind, ax_plot.
  rewrite length_seq, Nat.eqb_sym.
  destruct (length f =? 12)%nat; unfold ret, raise.
  - apply IH. exact H.
  - reflexivity.
Qed.

(** X13. Drawing the forecasts succeeds exactly when every forecast has
    12 values: then each becomes one line of the chart, in order, over
    the 12 positions after the end of the series; otherwise it raises a
    [ValueError].  It changes nothing else. *)
Theorem plot_forecasts_needs_12_values ts forecasts fig w :
  (forallb has_12_values forecasts = true ->
   plot_forecasts ts forecasts fig w
   = (inr (fig ++ forecast_lines ts forecasts), w))
  /\ (forallb has_12_values forecasts = false ->
      raises "ValueError" (fst (plot_forecasts ts forecasts fig w)) = true)
  /\ snd (plot_forecasts ts forecasts fig w) = w.
Proof.
  split; [apply plot_forecasts_ok|].
  split; [apply plot_forecasts_raises | apply plot_forecasts_world].
Qed.

End ScoringLoopFacts.

(** ** More about the whole run *)

Section WholeRunFacts.

Context {L : Libraries}.

Lemma recompute_forecasts_ok c ts :
  (forall m w, exists v, fst (adapter c ts m w) = inr v /\ length v = 12%nat) ->
  forall w, exists forecasts w',
    recompute_forecasts c ts w = (inr forecasts, w')
    /\ map fst forecasts
       = ["ETS Forecast"; "ARIMA Forecast"; "XGBoost Forecast"; "LSTM Forecast"]%string
    /\ forallb has_12_values forecasts = true.
Proof.
  intros H w. unfold recompute_forecasts, bind.
  destruct (H ETS w) as (v1 & E1 & L1).
  destruct (adapter c ts ETS w) as [r1 w1]; cbn [fst] in E1; subst r1.
  destruct (H ARIMA w1) as (v2 & E2 & L2).
  destruct (adapter c ts ARIMA w1) as [r2 w2]; cbn [fst] in E2; subst r2.
  destruct (H XGBoost w2) as (v3 & E3 & L3).
  destruct (adapter c ts XGBoost w2) as [r3 w3]; cbn [fst] in E3; subst r3.
  destruct (H LSTM_ w3) as (v4 & E4 & L4).
  destruct (adapter c ts LSTM_ w3) as [r4 w4]; cbn [fst] in E4; subst r4.
  do 2 eexists. split; [reflexivity|]. split; [reflexivity|].
  unfold has_12_values. cbn [forallb snd].
  now rewrite L1, L2, L3, L4.
Qed.

Lemma visualization_ok c ts w forecasts w' :
  recompute_forecasts c ts w = (inr forecasts, w') ->
  forallb has_12_values forecasts = true ->
  visualization c ts w
  = (inr forecasts,
     World (libs w')
       (trace w' ++ [StPyplot (("Actual"%string, seq 0 (length ts), ts)
                               :: forecast_lines ts forecasts)])).
Proof.
  intros Hre Hlen. unfold visualization. unfold bind at 1.
  rewrite ax_plot_actual. unfold bind at 1. rewrite Hre.
  unfold bind at 1. rewrite plot_forecasts_ok by assumption.
  unfold bind, emit, ret. reflexivity.
Qed.

Lemma metrics_table_run results w :
  metrics_table results w
  = (inr tt,
     World (libs w)
       (trace w ++ [StWrite "Performance Metrics"; StDataframe results;
                    StProgressInt 100; StText "Forecasting Completed!"])).
Proof.
  unfold metrics_table, bind, emit. cbn [libs trace].
  rewrite <- !app_assoc. reflexivity.
Qed.

Lemma scored_rows_all ts futures :
  Forall (fun nf => succeeds (future_scores ts (snd nf)) = true) futures ->
  map fst (scored_rows ts futures) = map fst futures.
Proof.
  induction 1 as [|[name fut] rest Hs _ IH]; [reflexivity|].
  unfold scored_rows. cbn [flat_map fst snd]. fold (scored_rows ts rest).
  cbn [snd] in Hs. destruct (future_scores ts fut); [discriminate|].
  cbn [app map fst]. now rewrite IH.
Qed.

Lemma submit_all_futures c ts w futures w1 :
  submit_all c ts w = (inr futures, w1) ->
  Forall (fun nf => exists m wm, snd nf = fst (adapter c ts m wm)) futures.
Proof.
  intros Hs. pose proof (submit_all_run c ts w) as Hs'. cbv zeta in Hs'.
  rewrite Hs in Hs'. injection Hs' as Hf Hw. subst futures.
  apply Forall_cons; [exists ETS; eexists; reflexivity|].
  apply Forall_cons; [exists ARIMA; eexists; reflexivity|].
  apply Forall_cons; [exists XGBoost; eexists; reflexivity|].
  apply Forall_cons; [exists LSTM_; eexists; reflexivity|].
  apply Forall_nil.
Qed.

Lemma run_forecast_completes_aux c ts :
  (forall m w, exists v, fst (adapter c ts m w) = inr v /\ length v = 12%nat) ->
  forall w, exists forecasts results tr,
    fst (run_forecast c ts w) = inr tt
    /\ trace (snd (run_forecast c ts w))
       = tr ++ closing_output ts forecasts results
    /\ map fst forecasts
       = ["ETS Forecast"; "ARIMA Forecast"; "XGBoost Forecast"; "LSTM Forecast"]%string
    /\ ((12 <= length ts)%nat ->
        map fst results = ["ETS"; "ARIMA"; "XGBoost"; "LSTM"]%string).
Proof.
  intros H w.
  pose proof (run_forecast_unfold c ts w) as Hrun. cbv zeta in Hrun.
  set (w0 := World (libs w) (trace w ++ [StProgressInt 0])) in *.
  destruct (scoring_stage_results_and_output_aux c ts w0)
    as (futures & w1 & Hs & Hnames & Hpar).
  rewrite Hpar in Hrun. cbn [fst snd] in Hrun.
  set (w2 := World (libs w1) (trace w1 ++ loop_output ts 4 1 futures)) in *.
  destruct (recompute_forecasts_ok c ts H w2)
    as (forecasts & w3 & Hre & Hlabels & Hlen).
  rewrite (visualization_ok c ts w2 forecasts w3 Hre Hlen) in Hrun.
  cbn [fst snd] in Hrun. rewrite metrics_table_run in Hrun.
  exists forecasts, (scored_rows ts futures), (trace w3).
  rewrite Hrun. cbn [fst snd trace libs].
  split; [reflexivity|]. split.
  { unfold closing_output. rewrite <- app_assoc. reflexivity. }
  split; [exact Hlabels|].
  intros Hts. rewrite scored_rows_all; [exact Hnames|].
  eapply Forall_impl; [|exact (submit_all_futures c ts w0 futures w1 Hs)].
  intros [name fut] (m & wm & Hfut). cbn [snd] in *. subst fut.
  apply future_scores_succeeds.
  destruct (H m wm) as (v & Hv & Hv12). exists v.
  split; [exact Hv|]. split; [lia|]. intros ->. discriminate.
Qed.


Lemma recompute_forecasts_succeeds c ts :
  (forall m w, succeeds (fst (adapter c ts m w)) = true) ->
  forall w, exists forecasts w',
    recompute_forecasts c ts w = (inr forecasts, w').
Proof.
  intros H w. unfold recompute_forecasts, bind.
  pose proof (H ETS w) as E1.
  destruct (adapter c ts ETS w) as [[e1|v1] w1]; [discriminate|].
  pose proof (H ARIMA w1) as E2.
  destruct (adapter c ts ARIMA w1) as [[e2|v2] w2]; [discriminate|].
  pose proof (H XGBoost w2) as E3.
  destruct (adapter c ts XGBoost w2) as [[e3|v3] w3]; [discriminate|].
  pose proof (H LSTM_ w3) as E4.
  destruct (adapter c ts LSTM_ w3) as [[e4|v4] w4]; [discriminate|].
  do 2 eexists. reflexivity.
Qed.

Lemma has_12_values_all forecasts label v :
  forallb has_12_values forecasts = true ->
  dict_get forecasts label = Some v -> length v = 12%nat.
Proof.
  induction forecasts as [|[l f] rest IH]; cbn [forallb dict_get];
    [discriminate|].
  intros Hall Hget. apply andb_prop in Hall as [Hf Hrest].
  destruct (String.eqb l label).
  - inversion Hget; subst. unfold has_12_values in Hf. cbn [snd] in Hf.
    now apply Nat.eqb_eq.
  - auto.
Qed.

(** X15. When every adapter call succeeds but one method's forecasts do
    not have 12 values, the run does not complete: drawing that forecast
    raises a [ValueError], which ends the run before the chart and the
    table of metrics are shown. *)
Theorem run_forecast_aborts_on_short_forecast c ts bad :
  (forall m w, succeeds (fst (adapter c ts m w)) = true) ->
  (forall w v, fst (adapter c ts bad w) = inr v -> length v <> 12%nat) ->
  forall w,
    raises "ValueError" (fst (run_forecast c ts w)) = true
    /\ filter is_dataframe (trace (snd (run_forecast c ts w)))
       = filter is_dataframe (trace w).
Proof.
  intros Hok Hbad w.
  pose proof (run_forecast_unfold c ts w) as Hrun. cbv zeta in Hrun.
  set (w0 := World (libs w) (trace w ++ [StProgressInt 0])) in *.
  destruct (run_models_in_parallel_run c ts w0)
    as (futures & results & w1 & Hpar & _ & _ & Happ1 & _).
  rewrite Hpar in Hrun. cbn [fst snd] in Hrun.
  destruct (recompute_forecasts_succeeds c ts Hok w1) as (forecasts & w2 & Hre).
  assert (Hshort : forallb has_12_values forecasts = false).
  { destruct (forallb has_12_values forecasts) eqn:Hall; [|reflexivity].
    exfalso.
    destruct (recompute_forecasts_inr c ts w1 forecasts w2 Hre bad)
      as (wm & v & Hv & Hget).
    exact (Hbad wm v Hv (has_12_values_all _ _ _ Hall Hget)). }
  assert (Hvis : raises "ValueError" (fst (visualization c ts w1)) = true).
  { unfold visualization. unfold bind at 1. rewrite ax_plot_actual.
    unfold bind at 1. rewrite Hre. unfold bind at 1.
    pose proof (plot_forecasts_raises ts forecasts
                  [("Actual"%string, seq 0 (length ts), ts)] w2 Hshort) as Hp.
    destruct (plot_forecasts ts forecasts _ w2) as [[e|fig] w3];
      cbn [fst raises] in *; [exact Hp | discriminate]. }
  pose proof (visualization_quiet c ts w1) as Happ2.
  destruct (visualization c ts w1) as [[e|fs] w3]; cbn [fst snd raises] in *;
    [|discriminate].
  rewrite Hrun. cbn [fst snd raises]. split; [exact Hvis|].
  apply appends_filter with (P := not_dataframe).
  - intros ev H. unfold not_dataframe in H. now destruct (is_dataframe ev).
  - eapply appends_trans; [|eapply appends_trans; [exact Happ1 | exact Happ2]].
    exists [StProgressInt 0]. split; reflexivity.
Qed.

Lemma loop_output_no_fit ts total i futures :
  fit_events (loop_output ts total i futures) = [].
Proof.
  revert i. induction futures as [|[model fut] rest IH]; intros i;
    [reflexivity|].
  cbn [loop_output]. rewrite fit_events_app.
  unfold fit_events at 2. cbn [filter is_fit]. fold (fit_events (loop_output ts total (S i) rest)).
  rewrite IH. destruct (future_scores ts fut); reflexivity.
Qed.

Lemma round_fit_events c ts w :
  (1 <= cfg_lags c)%nat ->
  let a1 := adapter c ts ETS w in
  let a2 := adapter c ts ARIMA (snd a1) in
  let a3 := adapter c ts XGBoost (snd a2) in
  let a4 := adapter c ts LSTM_ (snd a3) in
  fit_events (trace (snd a4)) = fit_events (trace w) ++ round_of_fits c ts.
Proof.
  intros Hlags. cbv zeta.
  rewrite fit_events_LSTM by assumption.
  rewrite fit_events_XGBoost, fit_events_ARIMA, fit_events_ETS.
  unfold round_of_fits. rewrite <- !app_assoc. reflexivity.
Qed.

Lemma recompute_forecasts_world c ts w forecasts w' :
  recompute_forecasts c ts w = (inr forecasts, w') ->
  w' = snd (adapter c ts LSTM_
              (snd (adapter c ts XGBoost
                      (snd (adapter c ts ARIMA (snd (adapter c ts ETS w))))))).
Proof.
  intros H. unfold recompute_forecasts in H.
  apply bind_inr in H as (v1 & w1 & H1 & H). rewrite H1. cbn [snd].
  apply bind_inr in H as (v2 & w2 & H2 & H). rewrite H2. cbn [snd].
  apply bind_inr in H as (v3 & w3 & H3 & H). rewrite H3. cbn [snd].
  apply bind_inr in H as (v4 & w4 & H4 & H). rewrite H4. cbn [snd].
  now inversion H.
Qed.

Lemma visualization_inr_trace c ts w forecasts w' :
  visualization c ts w = (inr forecasts, w') ->
  exists w1 fig,
    recompute_forecasts c ts w = (inr forecasts, w1)
    /\ trace w' = trace w1 ++ [StPyplot fig].
Proof.
  intros H. unfold visualization in H.
  apply bind_inr in H as (fig & w0 & Hfig & H).
  rewrite ax_plot_actual in Hfig. inversion Hfig; subst.
  apply bind_inr in H as (fs & w1 & Hfs & H).
  apply bind_inr in H as (fig' & w2 & Hplot & H).
  apply bind_inr in H as (u & w3 & Hemit & H).
  pose proof (plot_forecasts_world ts fs
                [("Actual"%string, seq 0 (length ts), ts)] w1) as Hw.
  rewrite Hplot in Hw. cbn [snd] in Hw. subst w2.
  unfold emit in Hemit. unfold ret in H.
  injection Hemit as _ Hw3. injection H as Hf Hw'. subst fs w' w3.
  exists w1, fig'. split; [exact Hfs | reflexivity].
Qed.

(** X16. A run (with at least one lag) that completes has fitted every
    model twice on the same data: its fitting calls are the four of the
    scoring stage, then the same four again for the chart. *)
Theorem completed_run_fits_each_model_twice c ts w :
  (1 <= cfg_lags c)%nat ->
  fst (run_forecast c ts w) = inr tt ->
  fit_events (trace (snd (run_forecast c ts w)))
  = fit_events (trace w) ++ round_of_fits c ts ++ round_of_fits c ts.
Proof.
  intros Hlags Hdone.
  pose proof (run_forecast_unfold c ts w) as Hrun. cbv zeta in Hrun.
  set (w0 := World (libs w) (trace w ++ [StProgressInt 0])) in *.
  destruct (scoring_stage_results_and_output_aux c ts w0)
    as (futures & w1 & Hs & _ & Hpar).
  rewrite Hpar in Hrun. cbn [fst snd] in Hrun.
  set (w2 := World (libs w1) (trace w1 ++ loop_output ts 4 1 futures)) in *.
  destruct (visualization c ts w2) as [[e|forecasts] w4] eqn:Hvis;
    cbn [fst snd] in Hrun.
  { rewrite Hrun in Hdone. discriminate. }
  destruct (visualization_inr_trace c ts w2 forecasts w4 Hvis)
    as (w3 & fig & Hre & Htr4).
  rewrite Hrun, metrics_table_run. cbn [snd trace].
  rewrite Htr4, !fit_events_app.
  rewrite (recompute_forecasts_world c ts w2 forecasts w3 Hre).
  rewrite (round_fit_events c ts w2 Hlags).
  subst w2. cbn [trace]. rewrite fit_events_app, loop_output_no_fit.
  assert (Hw1 : w1 = snd (adapter c ts LSTM_
                            (snd (adapter c ts XGBoost
                                    (snd (adapter c ts ARIMA
                                            (snd (adapter c ts ETS w0)))))))).
  { pose proof (submit_all_run c ts w0) as Hs'. cbv zeta in Hs'.
    rewrite Hs in Hs'. now inversion Hs'. }
  rewrite Hw1.
  rewrite (round_fit_events c ts w0 Hlags).
  subst w0. cbn [trace]. rewrite fit_events_app.
  cbn. rewrite !app_nil_r, <- !app_assoc. reflexivity.
Qed.

End WholeRunFacts.

(** ** [preprocess_file] *)

(** X17. [preprocess_file] never raises and never touches the forecasting
    libraries.  It returns a series, showing nothing, only when the file
    was read, has at least two columns, and the grouping and the column
    selection succeeded; in every other case it returns [None] after
    exactly one error message, which for a file of fewer than two columns
    is "The uploaded file must have at least two columns.". *)
Theorem preprocess_file_outcomes {L : Libraries} {P : Pandas}
    (file : uploaded_file) (w : world) :
  ((exists s df df',
      preprocess_file file w = (inr (Some s), w)
      /\ read_csv file = inr df
      /\ (2 <= length (columns df))%nat
      /\ groupby_sum_reset_index df (nth 0 (columns df) ""%string) = inr df'
      /\ iloc_last_column df' = inr s)
   \/ (exists msg,
         preprocess_file file w
         = (inr None, World (libs w) (trace w ++ [StError msg]))))
  /\ (forall df,
        read_csv file = inr df -> (length (columns df) < 2)%nat ->
        preprocess_file file w
        = (inr None,
           World (libs w)
             (trace w
              ++ [StError "The uploaded file must have at least two columns."]))).
Proof.
  split.
  - unfold preprocess_file, try_except, bind, lift.
    destruct (read_csv file) as [e|df] eqn:Hread; cbv beta iota.
    { right. eexists. unfold emit, ret. reflexivity. }
    destruct (Nat.ltb_spec (length (columns df)) 2) as [Hcols|Hcols].
    { right. eexists. unfold emit, ret. reflexivity. }
    destruct (groupby_sum_reset_index df (nth 0 (columns df) ""%string))
      as [e|df'] eqn:Hgroup; cbv beta iota.
    { right. eexists. unfold emit, ret. reflexivity. }
    destruct (iloc_last_column df') as [e|s] eqn:Hsel; cbv beta iota.
    { right. eexists. unfold emit, ret. reflexivity. }
    left. exists s, df, df'. unfold ret. repeat split; auto.
  - intros df Hread Hcols.
    unfold preprocess_file, try_except, bind, lift. rewrite Hread.
    cbv beta iota.
    destruct (Nat.ltb_spec (length (columns df)) 2) as [_|Hge]; [|lia].
    unfold emit, ret. reflexivity.
Qed.

(** ** More runs on the stand-in libraries *)

Lemma adapter_fits_then_predicts_witness :
  exists fit_ev pred_ev,
    is_fit fit_ev = true /\ is_predict pred_ev = true
    /\ ((succeeds (fst (adapter (L := standin_libs true false) default_params
                          (ramp 20) ETS (standin_start true false))) = false
         /\ trace (snd (adapter (L := standin_libs true false) default_params
                          (ramp 20) ETS (standin_start true false)))
            = trace (standin_start true false) ++ [fit_ev])
        \/ trace (snd (adapter (L := standin_libs true false) default_params
                         (ramp 20) ETS (standin_start true false)))
           = trace (standin_start true false) ++ [fit_ev; pred_ev]).
Proof.
  apply (adapter_fits_then_predicts (L := standin_libs true false)
           default_params (ramp 20) ETS (standin_start true false)).
  simpl. lia.
Defined.

Lemma standin_adapters_return_12 m w :
  exists v,
    fst (adapter (L := standin_libs true false) default_params (ramp 30) m w)
    = inr v /\ length v = 12%nat.
Proof. destruct m; eexists; split; reflexivity. Qed.


Lemma run_forecast_aborts_on_short_forecast_witness :
  raises "ValueError"
    (fst (run_forecast (L := standin_libs false false) unseasonal_params
            (ramp 14) (standin_start false false))) = true
  /\ filter is_dataframe
       (trace (snd (run_forecast (L := standin_libs false false)
                      unseasonal_params (ramp 14) (standin_start false false))))
     = [].
Proof.
  apply (run_forecast_aborts_on_short_forecast (L := standin_libs false false)
           unseasonal_params (ramp 14) XGBoost).
  - intros m w. destruct m; reflexivity.
  - intros w v H. cbn in H. inversion H. simpl. lia.
Defined.

Lemma completed_run_fits_each_model_twice_witness :
  fit_events
    (trace (snd (run_forecast (L := standin_libs true false) default_params
                   (ramp 30) (standin_start true false))))
  = round_of_fits default_params (ramp 30)
    ++ round_of_fits default_params (ramp 30).
Proof.
  apply (completed_run_fits_each_model_twice (L := standin_libs true false)
           default_params (ramp 30) (standin_start true false)).
  - simpl. lia.
  - destruct (run_forecast_completes_aux (L := standin_libs true false)
                default_params (ramp 30) standin_adapters_return_12
                (standin_start true false)) as (_ & _ & _ & Hdone & _).
    exact Hdone.
Defined.
